(** * clean-tree: the traversal-and-render engine of [src/clean-tree.ts]

    A shallow embedding of the tree generator.  The file system, the path
    library, the ignore engine, the locale collation and the colour styling
    are collaborators of the program; they are gathered in the [Host]
    interface and every definition of the program is written over it. *)

From Stdlib Require Import List String Ascii ZArith Lia Bool Arith.
From Stdlib Require Import Sorted Permutation DecimalString.
Import ListNotations.
Local Open Scope string_scope.
Local Open Scope list_scope.
Local Open Scope Z_scope.

(** Template literals concatenate strings. *)
Infix "+++" := String.append (at level 60, right associativity).

Set Implicit Arguments.

(** ** Exceptions

    [Error] is what the host throws; [TreeError] is the class of [types.ts],
    with its [code]. *)

Inductive Exn :=
| Error (message : string)
| TreeError (message code : string).

Definition Exn_message (e : Exn) : string :=
  match e with Error m => m | TreeError m _ => m end.

(** A call that returns or throws. *)
Inductive Result (A : Type) : Type :=
| Ok (a : A)
| Throw (e : Exn).
Arguments Ok {A} a.
Arguments Throw {A} e.

Module Res.
Definition bind {A B : Type} (r : Result A) (k : A -> Result B) : Result B :=
  match r with
  | Ok a => k a
  | Throw e => Throw e
  end.

(** [try { body } catch (err) { handler err }] *)
Definition try_catch {A : Type} (body : Result A) (handler : Exn -> Result A) : Result A :=
  match body with
  | Ok a => Ok a
  | Throw e => handler e
  end.

(** [l.map(f)] for a callback that may throw: the first throw ends the loop. *)
Fixpoint mapi_from {A B : Type} (f : A -> nat -> Result B) (index : nat) (l : list A)
  : Result (list B) :=
  match l with
  | [] => Ok []
  | x :: l' =>
      bind (f x index) (fun y =>
      bind (mapi_from f (S index) l') (fun ys => Ok (y :: ys)))
  end.

Definition mapi {A B : Type} (f : A -> nat -> Result B) (l : list A) : Result (list B) :=
  mapi_from f 0 l.

(** [l.filter(f)] for a callback that may throw: the elements are asked in
    order, and the first throw ends the loop. *)
Fixpoint filter {A : Type} (f : A -> Result bool) (l : list A) : Result (list A) :=
  match l with
  | [] => Ok []
  | x :: l' =>
      bind (f x) (fun keep =>
      bind (filter f l') (fun rest => Ok (if (keep : bool) then x :: rest else rest)))
  end.

(** [for (const x of l) { s = body(x, s) }] *)
Fixpoint for_of {A S : Type} (l : list A) (body : A -> S -> Result S) (s : S) : Result S :=
  match l with
  | [] => Ok s
  | x :: l' => bind (body x s) (for_of l' body)
  end.
End Res.

(** ** [types.ts] *)

(** What [fs.Stats] is asked: [isDirectory()] and [isFile()].  A socket, a
    fifo or a device is neither. *)
Inductive FileKind := KDirectory | KFile | KOther.

Record Stats := mkStats { st_kind : FileKind }.

Definition Stats_isDirectory (s : Stats) : bool :=
  match st_kind s with KDirectory => true | _ => false end.

Definition Stats_isFile (s : Stats) : bool :=
  match st_kind s with KFile => true | _ => false end.

(** [depth] is a number of levels: it is taken in the integers. *)
Record TreeOptions := mkTreeOptions {
  opt_path : string;
  opt_depth : option Z;
  opt_exclude : option string;
  opt_gitignore : bool;
  opt_allignore : bool
}.

Record FileEntry := mkFileEntry {
  name : string;
  fullPath : string;
  isDirectory : bool;
  isLast : bool;
  stats : option Stats
}.

(** [{ ...entry, isLast: b }] *)
Definition with_isLast (entry : FileEntry) (b : bool) : FileEntry :=
  mkFileEntry (name entry) (fullPath entry) (isDirectory entry) b (stats entry).

Record TreeStats := mkTreeStats {
  dirCount : nat;
  fileCount : nat
}.

Record DirectoryContents := mkDirectoryContents {
  entries : list FileEntry;
  hasErrors : bool;
  errorMessage : option string
}.

(** An [Ignore] object, as the strings its [add] was called with, in the
    order of the calls, a call that threw included: what the object holds
    is a function of them, and the engine answers from them. *)
Definition Ignore := list string.

(** [ignore()] *)
Definition ignore_new : Ignore := [].

(** [maxDepth]: a finite bound, or [Infinity] when the option is absent. *)
Inductive Depth := Finite (n : Z) | Infinity.

(** [currentDepth > maxDepth] *)
Definition depth_gt (currentDepth : Z) (maxDepth : Depth) : bool :=
  match maxDepth with
  | Finite n => n <? currentDepth
  | Infinity => false
  end.

Record TreeGeneratorConfig := mkConfig {
  startPath : string;
  maxDepth : Depth;
  ignoreRules : Ignore
}.

Module TREE_SYMBOLS.
Definition BRANCH : string := "├── ".
Definition LAST : string := "└── ".
Definition VERTICAL : string := "│   ".
Definition SPACE : string := "    ".
End TREE_SYMBOLS.

Definition InvalidPathError (path : string) : Exn :=
  TreeError ("Invalid path: " +++ path) "INVALID_PATH_ERROR".

Definition GitignoreParseError (path : string) (originalError : Exn) : Exn :=
  TreeError ("Failed to parse .gitignore file: " +++ path) "GITIGNORE_PARSE_ERROR".

(** ** The host interface

    [statSync], [readdirSync] and [readFileSync] throw on failure.  So
    does the ignore engine: [add_throws ig pattern] is the exception of
    [ig.add(pattern)] when the engine rejects what it is given (a line that
    is no regular expression once translated), and [ignores ig p], the
    answer of [ig.ignores(p)] about a path relative to the start path, is
    an exception when the engine rejects the path (a path made of dots, or
    one that is not relative).  The file system does not change during a
    run; a name that is listed and cannot be inspected, or a directory that
    cannot be listed, is a host whose answers say so. *)

Class Host := {
  statSync : string -> Result Stats;
  readdirSync : string -> Result (list string);
  existsSync : string -> bool;
  readFileSync : string -> Result string;
  path_join : string -> string -> string;
  path_relative : string -> string -> string;
  path_resolve : string -> string;
  path_basename : string -> string;
  add_throws : Ignore -> string -> option Exn;
  ignores : Ignore -> string -> Result bool;
  localeCompare : string -> string -> Z;
  chalk_blue_bold : string -> string;
  chalk_red : string -> string;
  chalk_green : string -> string
}.

(** [ig.add(pattern)]: the object after the call, and how the call ended. *)
Definition ignore_add {H : Host} (ig : Ignore) (pattern : string) : Ignore * Result unit :=
  (ig ++ [pattern],
   match add_throws ig pattern with
   | Some err => Throw err
   | None => Ok tt
   end).

(** ** Arrays and strings of the language *)

(** [Array.prototype.sort(cmp)] is a stable sort.  It is taken as the stable
    insertion sort: [x] goes before the first element it does not exceed. *)
Fixpoint sort_insert {A : Type} (cmp : A -> A -> Z) (x : A) (l : list A) : list A :=
  match l with
  | [] => [x]
  | y :: l' => if cmp x y <=? 0 then x :: y :: l' else y :: sort_insert cmp x l'
  end.

Definition Array_sort {A : Type} (cmp : A -> A -> Z) (l : list A) : list A :=
  fold_right (sort_insert cmp) [] l.

(** What [sort] asks of its comparator, and what [localeCompare] is: the
    sign of [cmp b a] is the opposite of that of [cmp a b], and "not after"
    is transitive. *)
Definition consistent {A : Type} (cmp : A -> A -> Z) : Prop :=
  (forall a b, cmp a b < 0 <-> 0 < cmp b a) /\
  (forall a b c, cmp a b <= 0 -> cmp b c <= 0 -> cmp a c <= 0).

(** [l.map((x, index) => f x index)] *)
Fixpoint Array_mapi_from {A B : Type} (f : A -> nat -> B) (index : nat) (l : list A) : list B :=
  match l with
  | [] => []
  | x :: l' => f x index :: Array_mapi_from f (S index) l'
  end.

Definition Array_mapi {A B : Type} (f : A -> nat -> B) (l : list A) : list B :=
  Array_mapi_from f 0 l.

(** [l.includes(x)] on strings *)
Definition Array_includes (l : list string) (x : string) : bool :=
  existsb (String.eqb x) l.

Definition startsWith (s p : string) : bool := String.prefix p s.

Definition endsWith (s p : string) : bool :=
  let n := String.length s in
  let m := String.length p in
  (m <=? n)%nat && String.eqb (substring (n - m) m s) p.

(** [`${n}`] for a count *)
Definition string_of_nat (n : nat) : string :=
  NilEmpty.string_of_uint (Nat.to_uint n).

Definition newline : string := String (ascii_of_nat 10) EmptyString.

(** ** [FileUtils] *)

Module FileUtils.
Section WithHost.
Context {H : Host}.

Definition getFileStat (filePath : string) : Result (option Stats) :=
  Res.try_catch
    (Res.bind (statSync filePath) (fun s => Ok (Some s)))
    (fun _ => Ok None).

(** [stat?.isDirectory() ?? false] *)
Definition isDirectory (filePath : string) : Result bool :=
  Res.bind (getFileStat filePath) (fun stat =>
  Ok (match stat with
      | Some s => Stats_isDirectory s
      | None => false
      end)).

Definition isFile (filePath : string) : Result bool :=
  Res.bind (getFileStat filePath) (fun stat =>
  Ok (match stat with
      | Some s => Stats_isFile s
      | None => false
      end)).

End WithHost.
End FileUtils.

(** ** [FilterUtils] and [SortUtils] *)

Module FilterUtils.
Section WithHost.
Context {H : Host}.

Definition systemFiles : list string := [".DS_Store"; "Thumbs.db"; "desktop.ini"].

Definition createSystemFileFilter (entry : FileEntry) : Result bool :=
  Ok (negb (Array_includes systemFiles (name entry))).

Definition createIgnoreFilter (ig : Ignore) (startPath : string) (entry : FileEntry)
  : Result bool :=
  let relativePath := path_relative startPath (fullPath entry) in
  Res.bind (ignores ig relativePath) (fun ignored => Ok (negb ignored)).

End WithHost.
End FilterUtils.

Module SortUtils.
Section WithHost.
Context {H : Host}.

Definition createDefaultSort (a b : FileEntry) : Z :=
  if isDirectory a && negb (isDirectory b) then -1
  else if negb (isDirectory a) && isDirectory b then 1
  else localeCompare (name a) (name b).

End WithHost.
End SortUtils.

(** ** The console, the counters and the monad of the generator

    A [Line] is one [console.log]: the text printed, and the place of the
    program that printed it.  The [level] of an entry line is the
    [currentDepth] of the [walk] that printed it (1 for the children of the
    root); it is an annotation of the line: the program computes nothing
    from it.  [console_err] holds what the program writes with
    [console.error]; what the runtime reports of an exception no one
    caught is not the program's and is not recorded. *)

Inductive Site :=
| AtRoot
| AtEntry (level : Z) (entry : FileEntry)
| AtListingError (level : Z)
| AtSummary.

Record Line := mkLine { site : Site; text : string }.

Record Machine := mkMachine {
  tg_stats : TreeStats;
  console_out : list Line;
  console_err : list string
}.

(** How a computation ends: it returns, throws, leaves through
    [process.exit], or is still running when the fuel is spent. *)
Inductive Outcome (A : Type) : Type :=
| Returned (a : A)
| Raised (e : Exn)
| Exited (code : Z)
| OutOfFuel.
Arguments Returned {A} a.
Arguments Raised {A} e.
Arguments Exited {A} code.
Arguments OutOfFuel {A}.

Definition M (A : Type) : Type := Machine -> Outcome A * Machine.

Definition ret {A : Type} (a : A) : M A := fun m => (Returned a, m).

Definition bind {A B : Type} (c : M A) (k : A -> M B) : M B :=
  fun m =>
    match c m with
    | (Returned a, m') => k a m'
    | (Raised e, m') => (Raised e, m')
    | (Exited code, m') => (Exited code, m')
    | (OutOfFuel, m') => (OutOfFuel, m')
    end.

Notation "x <- c ;; k" := (bind c (fun x => k))
  (at level 61, c at next level, right associativity).
Notation "c ;;; k" := (bind c (fun _ => k))
  (at level 61, right associativity).

Definition throw {A : Type} (e : Exn) : M A := fun m => (Raised e, m).

Definition lift {A : Type} (r : Result A) : M A :=
  match r with
  | Ok a => ret a
  | Throw e => throw e
  end.

(** [try { body } catch (err) { handler err }]: what [body] printed and
    counted before it threw stays. *)
Definition try_catch {A : Type} (body : M A) (handler : Exn -> M A) : M A :=
  fun m =>
    match body m with
    | (Raised e, m') => handler e m'
    | r => r
    end.

Definition process_exit {A : Type} (code : Z) : M A := fun m => (Exited code, m).

Definition out_of_fuel {A : Type} : M A := fun m => (OutOfFuel, m).

Definition console_log (s : Site) (t : string) : M unit :=
  fun m => (Returned tt,
            mkMachine (tg_stats m) (console_out m ++ [mkLine s t]) (console_err m)).

Definition console_error (t : string) : M unit :=
  fun m => (Returned tt,
            mkMachine (tg_stats m) (console_out m) (console_err m ++ [t])).

Definition get_stats : M TreeStats := fun m => (Returned (tg_stats m), m).

Definition set_stats (s : TreeStats) : M unit :=
  fun m => (Returned tt, mkMachine s (console_out m) (console_err m)).

(** [l.forEach(f)] *)
Fixpoint forEach {A : Type} (l : list A) (f : A -> M unit) : M unit :=
  match l with
  | [] => ret tt
  | x :: l' => f x ;;; forEach l' f
  end.

(** ** The generator under construction

    The constructor and its loaders mutate [this.config.ignoreRules] and
    write on the error stream.  The object is part of the state, so that a
    [catch] finds it as the call that threw left it. *)

Module Build.

Record State := mkState {
  rules : Ignore;
  machine : Machine
}.

Definition M (A : Type) : Type := State -> Outcome A * State.

Definition ret {A : Type} (a : A) : M A := fun b => (Returned a, b).

Definition bind {A B : Type} (c : M A) (k : A -> M B) : M B :=
  fun b =>
    match c b with
    | (Returned a, b') => k a b'
    | (Raised e, b') => (Raised e, b')
    | (Exited code, b') => (Exited code, b')
    | (OutOfFuel, b') => (OutOfFuel, b')
    end.

Definition throw {A : Type} (e : Exn) : M A := fun b => (Raised e, b).

Definition lift {A : Type} (r : Result A) : M A :=
  match r with
  | Ok a => ret a
  | Throw e => throw e
  end.

(** [try { body } catch (err) { handler err }] *)
Definition try_catch {A : Type} (body : M A) (handler : Exn -> M A) : M A :=
  fun b =>
    match body b with
    | (Raised e, b') => handler e b'
    | r => r
    end.

Definition console_error (t : string) : M unit :=
  fun b =>
    (Returned tt,
     mkState (rules b)
       (mkMachine (tg_stats (machine b)) (console_out (machine b))
          (console_err (machine b) ++ [t]))).

(** [this.config.ignoreRules.add(pattern)] *)
Definition add {H : Host} (pattern : string) : M unit :=
  fun b =>
    let r := ignore_add (rules b) pattern in
    (match snd r with
     | Ok _ => Returned tt
     | Throw err => Raised err
     end,
     mkState (fst r) (machine b)).

(** [for (const x of l) { body x }] *)
Fixpoint for_of {A : Type} (l : list A) (body : A -> M unit) : M unit :=
  match l with
  | [] => ret tt
  | x :: l' => bind (body x) (fun _ => for_of l' body)
  end.

End Build.

(** A method of the constructor, run on the object [ig]: the object it
    leaves when it returns. *)
Definition build (c : Build.M unit) (ig : Ignore) : M Ignore :=
  fun m =>
    match c (Build.mkState ig m) with
    | (Returned _, b) => (Returned (Build.rules b), Build.machine b)
    | (Raised e, b) => (Raised e, Build.machine b)
    | (Exited code, b) => (Exited code, Build.machine b)
    | (OutOfFuel, b) => (OutOfFuel, Build.machine b)
    end.

Declare Scope build_scope.
Delimit Scope build_scope with build.
Notation "x <- c ;; k" := (Build.bind c (fun x => k)) : build_scope.
Notation "c ;;; k" := (Build.bind c (fun _ => k)) : build_scope.

(** ** [TreeGenerator] *)

Module TreeGenerator.
Section WithHost.
Context {H : Host}.

Definition loadGitignoreRules (startPath : string) : Build.M unit :=
  let gitignorePath := path_join startPath ".gitignore" in
  if existsSync gitignorePath then
    Build.try_catch
      (gitignoreContent <- Build.lift (readFileSync gitignorePath) ;;
       Build.add gitignoreContent)%build
      (fun err =>
         Build.console_error
           (chalk_red ("Error reading .gitignore file: " +++ Exn_message err)))
  else Build.ret tt.

Definition loadAllIgnoreRules (startPath : string) : Build.M unit :=
  match readdirSync startPath with
  | Throw _ => Build.ret tt
  | Ok files =>
      let ignoreFiles :=
        filter (fun name => startsWith name "." && endsWith name "ignore") files in
      Build.for_of ignoreFiles (fun ignoreFile =>
        let filePath := path_join startPath ignoreFile in
        (is_file <- Build.lift (FileUtils.isFile filePath) ;;
         if (is_file : bool) then
           Build.try_catch
             (content <- Build.lift (readFileSync filePath) ;;
              Build.add content)
             (fun err =>
                Build.console_error
                  (chalk_red
                     ("Error reading " +++ ignoreFile +++ " file: " +++ Exn_message err)))
         else Build.ret tt)%build)
  end.

(** [if (options.exclude)]: [undefined] and the empty string are falsy. *)
Definition truthy (s : option string) : bool :=
  match s with
  | Some EmptyString => false
  | Some _ => true
  | None => false
  end.

Definition setupIgnoreRules (startPath : string) (options : TreeOptions) : Build.M unit :=
  Build.try_catch
    ((if opt_allignore options then loadAllIgnoreRules startPath
      else if opt_gitignore options then loadGitignoreRules startPath
      else Build.ret tt) ;;;
     if truthy (opt_exclude options) then
       match opt_exclude options with
       | Some exclude => Build.add exclude
       | None => Build.ret tt
       end
     else Build.ret tt)%build
    (fun err => Build.throw (GitignoreParseError startPath err)).

(** [new TreeGenerator(options)]: the configuration of the generator built,
    when [setupIgnoreRules] returns. *)
Definition new (options : TreeOptions) : M TreeGeneratorConfig :=
  let startPath := path_resolve (opt_path options) in
  let maxDepth := match opt_depth options with
                  | Some depth => Finite depth
                  | None => Infinity
                  end in
  set_stats (mkTreeStats 0 0) ;;;
  ig <- build (setupIgnoreRules startPath options) ignore_new ;;
  ret (mkConfig startPath maxDepth ig).

Definition createFileEntries (currentPath : string) (entries : list string)
  : Result (list FileEntry) :=
  Res.mapi (fun entry index =>
    let fullPath := path_join currentPath entry in
    Res.bind (FileUtils.isDirectory fullPath) (fun isDirectory =>
    Res.bind (FileUtils.getFileStat fullPath) (fun st =>
    Ok (mkFileEntry entry fullPath isDirectory
          (Z.of_nat index =? Z.of_nat (List.length entries) - 1) st))))
    entries.

(** A filter that throws ends the call: nothing is sorted or returned. *)
Definition filterAndSortEntries (config : TreeGeneratorConfig) (entries : list FileEntry)
  : Result (list FileEntry) :=
  let filters :=
    [ FilterUtils.createSystemFileFilter;
      FilterUtils.createIgnoreFilter (ignoreRules config) (startPath config) ] in
  Res.bind
    (Res.for_of filters (fun filter filteredEntries => Res.filter filter filteredEntries)
       entries)
    (fun filteredEntries =>
  let filteredEntries := Array_sort SortUtils.createDefaultSort filteredEntries in
  Ok (Array_mapi (fun entry index =>
        with_isLast entry (Z.of_nat index =? Z.of_nat (List.length filteredEntries) - 1))
        filteredEntries)).

Definition getDirectoryContents (config : TreeGeneratorConfig) (currentPath : string)
  : Result DirectoryContents :=
  Res.try_catch
    (Res.bind (readdirSync currentPath) (fun entries =>
     Res.bind (createFileEntries currentPath entries) (fun fileEntries =>
     Res.bind (filterAndSortEntries config fileEntries) (fun sorted =>
     Ok (mkDirectoryContents sorted false None)))))
    (fun err => Ok (mkDirectoryContents [] true (Some (Exn_message err)))).

Definition connector_of (entry : FileEntry) : string :=
  if isLast entry then TREE_SYMBOLS.LAST else TREE_SYMBOLS.BRANCH.

(** [displayEntry(entry, prefix)]; [level] annotates the line, see [Site]. *)
Definition displayEntry (level : Z) (entry : FileEntry) (prefix : string) : M unit :=
  let connector := connector_of entry in
  if isDirectory entry then
    console_log (AtEntry level entry) (prefix +++ connector +++ chalk_blue_bold (name entry)) ;;;
    s <- get_stats ;;
    set_stats (mkTreeStats (S (dirCount s)) (fileCount s))
  else
    console_log (AtEntry level entry) (prefix +++ connector +++ name entry) ;;;
    s <- get_stats ;;
    set_stats (mkTreeStats (dirCount s) (S (fileCount s))).

Definition getNextPrefix (prefix : string) (isLast : bool) : string :=
  prefix +++ (if isLast then TREE_SYMBOLS.SPACE else TREE_SYMBOLS.VERTICAL).

(** [`[Error: ${contents.errorMessage}]`] *)
Definition error_text (errorMessage : option string) : string :=
  "[Error: " +++ match errorMessage with Some m => m | None => "undefined" end +++ "]".

(** The callback of [contents.entries.forEach] in [walk]; [walk] is the
    recursive call. *)
Definition visit (walk : string -> string -> Z -> M unit)
    (prefix : string) (currentDepth : Z) (entry : FileEntry) : M unit :=
  displayEntry currentDepth entry prefix ;;;
  if isDirectory entry then
    let nextPrefix := getNextPrefix prefix (isLast entry) in
    walk (fullPath entry) nextPrefix (currentDepth + 1)
  else ret tt.

(** One unit of fuel is spent per call. *)
Fixpoint walk (fuel : nat) (config : TreeGeneratorConfig)
    (currentPath prefix : string) (currentDepth : Z) : M unit :=
  match fuel with
  | O => out_of_fuel
  | S fuel' =>
      if depth_gt currentDepth (maxDepth config) then ret tt
      else
        contents <- lift (getDirectoryContents config currentPath) ;;
        if hasErrors contents then
          console_log (AtListingError currentDepth)
            (prefix +++ TREE_SYMBOLS.LAST +++ chalk_red (error_text (errorMessage contents)))
        else
          forEach (entries contents) (visit (walk fuel' config) prefix currentDepth)
  end.

Definition summary_text (s : TreeStats) : string :=
  newline +++ string_of_nat (dirCount s) +++ " directories, "
          +++ string_of_nat (fileCount s) +++ " files".

Definition generate (fuel : nat) (config : TreeGeneratorConfig) : M unit :=
  try_catch
    (is_dir <- lift (FileUtils.isDirectory (startPath config)) ;;
     (if negb is_dir then throw (InvalidPathError (startPath config)) else ret tt) ;;;
     console_log AtRoot (chalk_blue_bold (path_basename (startPath config))) ;;;
     walk fuel config (startPath config) "" 1 ;;;
     s <- get_stats ;;
     console_log AtSummary (chalk_green (summary_text s)))
    (fun err =>
       match err with
       | TreeError message code =>
           console_error (chalk_red ("Error [" +++ code +++ "]: " +++ message))
       | Error message =>
           console_error (chalk_red ("Unexpected error: " +++ message))
       end ;;;
       process_exit 1).

End WithHost.
End TreeGenerator.

(** ** The program: [new TreeGenerator(argv).generate()] *)

Definition initial : Machine := mkMachine (mkTreeStats 0 0) [] [].

Definition main {H : Host} (fuel : nat) (argv : TreeOptions) : M unit :=
  treeGenerator <- TreeGenerator.new argv ;;
  TreeGenerator.generate fuel treeGenerator.

(** The exit status of the process; [None] while it is still running. *)
Definition exit_code {A : Type} (o : Outcome A) : option Z :=
  match o with
  | Returned _ => Some 0
  | Raised _ => Some 1
  | Exited code => Some code
  | OutOfFuel => None
  end.

(** ** The values the guarded calls return

    [FileUtils] and [getDirectoryContents] catch what the host throws; these
    are the values they return, as functions of the host's answers. *)

(** A filter answered, and let the entry through. *)
Definition lets_through (r : Result bool) : bool :=
  match r with
  | Ok b => b
  | Throw _ => false
  end.

(** The entries that pass the two filters of [filterAndSortEntries]. *)
Definition kept {H : Host} (config : TreeGeneratorConfig) (entries : list FileEntry)
  : list FileEntry :=
  filter (fun entry =>
            lets_through
              (FilterUtils.createIgnoreFilter (ignoreRules config) (startPath config) entry))
    (filter (fun entry => lets_through (FilterUtils.createSystemFileFilter entry)) entries).

(** The exception of the first call of [f] that throws, over [l]. *)
Fixpoint first_throw {A B : Type} (f : A -> Result B) (l : list A) : option Exn :=
  match l with
  | [] => None
  | x :: l' =>
      match f x with
      | Throw err => Some err
      | Ok _ => first_throw f l'
      end
  end.

Module Values.
Section WithHost.
Context {H : Host}.

Definition stat_of (filePath : string) : option Stats :=
  match statSync filePath with
  | Ok s => Some s
  | Throw _ => None
  end.

Definition is_directory (filePath : string) : bool :=
  match stat_of filePath with
  | Some s => Stats_isDirectory s
  | None => false
  end.

Definition is_file (filePath : string) : bool :=
  match stat_of filePath with
  | Some s => Stats_isFile s
  | None => false
  end.

Definition file_entry (currentPath : string) (count : nat) (entry : string) (index : nat)
  : FileEntry :=
  let fullPath := path_join currentPath entry in
  mkFileEntry entry fullPath (is_directory fullPath)
    (Z.of_nat index =? Z.of_nat count - 1) (stat_of fullPath).

Definition file_entries (currentPath : string) (entries : list string) : list FileEntry :=
  Array_mapi (file_entry currentPath (List.length entries)) entries.

(** The exception of the ignore filter over the entries the system filter
    lets through, when the engine rejects the path of one of them. *)
Definition filter_failure (config : TreeGeneratorConfig) (entries : list FileEntry)
  : option Exn :=
  first_throw (FilterUtils.createIgnoreFilter (ignoreRules config) (startPath config))
    (filter (fun entry => lets_through (FilterUtils.createSystemFileFilter entry)) entries).

(** What [filterAndSortEntries] returns when no filter throws. *)
Definition sorted_entries (config : TreeGeneratorConfig) (entries : list FileEntry)
  : list FileEntry :=
  let filteredEntries := Array_sort SortUtils.createDefaultSort (kept config entries) in
  Array_mapi (fun entry index =>
    with_isLast entry (Z.of_nat index =? Z.of_nat (List.length filteredEntries) - 1))
    filteredEntries.

Definition contents_of (config : TreeGeneratorConfig) (currentPath : string)
  : DirectoryContents :=
  match readdirSync currentPath with
  | Ok entries =>
      match filter_failure config (file_entries currentPath entries) with
      | None =>
          mkDirectoryContents (sorted_entries config (file_entries currentPath entries))
            false None
      | Some err => mkDirectoryContents [] true (Some (Exn_message err))
      end
  | Throw err => mkDirectoryContents [] true (Some (Exn_message err))
  end.

End WithHost.
End Values.

(** ** The lines of a walk

    What [walk] prints, as a list: the outcome of the call and the lines it
    has printed by then.  [walk_run] below shows the program does exactly
    this to the console and the counters. *)

Definition dir_lines (ls : list Line) : nat :=
  List.length (filter (fun l => match site l with
                                | AtEntry _ e => isDirectory e
                                | _ => false
                                end) ls).

Definition file_lines (ls : list Line) : nat :=
  List.length (filter (fun l => match site l with
                                | AtEntry _ e => negb (isDirectory e)
                                | _ => false
                                end) ls).

(** Print [ls] and count its entry lines. *)
Definition emit (ls : list Line) (m : Machine) : Machine :=
  mkMachine
    (mkTreeStats (dirCount (tg_stats m) + dir_lines ls)%nat
                 (fileCount (tg_stats m) + file_lines ls)%nat)
    (console_out m ++ ls)
    (console_err m).

Fixpoint lines_forEach {A : Type} (l : list A) (f : A -> Outcome unit * list Line)
  : Outcome unit * list Line :=
  match l with
  | [] => (Returned tt, [])
  | x :: l' =>
      match f x with
      | (Returned _, ls1) => let (o, ls2) := lines_forEach l' f in (o, ls1 ++ ls2)
      | r => r
      end
  end.

Module Trace.
Section WithHost.
Context {H : Host}.

Definition entry_text (entry : FileEntry) (prefix : string) : string :=
  prefix +++ TreeGenerator.connector_of entry
         +++ (if isDirectory entry then chalk_blue_bold (name entry) else name entry).

Definition entry_line (level : Z) (entry : FileEntry) (prefix : string) : Line :=
  mkLine (AtEntry level entry) (entry_text entry prefix).

Definition error_line (level : Z) (prefix : string) (errorMessage : option string) : Line :=
  mkLine (AtListingError level)
         (prefix +++ TREE_SYMBOLS.LAST +++ chalk_red (TreeGenerator.error_text errorMessage)).

Fixpoint walk_lines (fuel : nat) (config : TreeGeneratorConfig)
    (currentPath prefix : string) (currentDepth : Z) : Outcome unit * list Line :=
  match fuel with
  | O => (OutOfFuel, [])
  | S fuel' =>
      if depth_gt currentDepth (maxDepth config) then (Returned tt, [])
      else
        match TreeGenerator.getDirectoryContents config currentPath with
        | Throw e => (Raised e, [])
        | Ok contents =>
            if hasErrors contents then
              (Returned tt, [error_line currentDepth prefix (errorMessage contents)])
            else
              lines_forEach (entries contents) (fun entry =>
                if isDirectory entry then
                  let (o, ls) :=
                    walk_lines fuel' config (fullPath entry)
                      (TreeGenerator.getNextPrefix prefix (isLast entry)) (currentDepth + 1) in
                  (o, entry_line currentDepth entry prefix :: ls)
                else (Returned tt, [entry_line currentDepth entry prefix]))
        end
  end.

(** The lines a walk of [currentPath] with [prefix] at [currentDepth] is
    entitled to print: the entries of its listing, the error line of a
    failed listing, and the lines of the walks of its directories. *)
Inductive Emits (config : TreeGeneratorConfig)
  : string -> string -> Z -> Line -> Prop :=
| Emits_entry currentPath prefix currentDepth contents entry :
    depth_gt currentDepth (maxDepth config) = false ->
    TreeGenerator.getDirectoryContents config currentPath = Ok contents ->
    hasErrors contents = false ->
    In entry (entries contents) ->
    Emits config currentPath prefix currentDepth (entry_line currentDepth entry prefix)
| Emits_error currentPath prefix currentDepth contents :
    depth_gt currentDepth (maxDepth config) = false ->
    TreeGenerator.getDirectoryContents config currentPath = Ok contents ->
    hasErrors contents = true ->
    Emits config currentPath prefix currentDepth
      (error_line currentDepth prefix (errorMessage contents))
| Emits_below currentPath prefix currentDepth contents entry line :
    depth_gt currentDepth (maxDepth config) = false ->
    TreeGenerator.getDirectoryContents config currentPath = Ok contents ->
    hasErrors contents = false ->
    In entry (entries contents) ->
    isDirectory entry = true ->
    Emits config (fullPath entry)
      (TreeGenerator.getNextPrefix prefix (isLast entry)) (currentDepth + 1) line ->
    Emits config currentPath prefix currentDepth line.

End WithHost.
End Trace.

(** ** The run as a whole

    The rules and the warnings of the set-up, and the lines of [generate],
    as functions of the host's answers. *)

Module Run.
Section WithHost.
Context {H : Host}.

(** Print the warnings [ws] on the error stream. *)
Definition warn (ws : list string) (m : Machine) : Machine :=
  mkMachine (tg_stats m) (console_out m) (console_err m ++ ws).

(** The line of a loader about the file [label]. *)
Definition warning (label : string) (err : Exn) : string :=
  chalk_red ("Error reading " +++ label +++ " file: " +++ Exn_message err).

(** One ignore file: read and given to [add].  A file that cannot be read,
    or whose content the engine rejects, is a line on the error stream. *)
Definition load_file (label filePath : string) (ig : Ignore) : Ignore * list string :=
  match readFileSync filePath with
  | Ok content =>
      (fst (ignore_add ig content),
       match snd (ignore_add ig content) with
       | Ok _ => []
       | Throw err => [warning label err]
       end)
  | Throw err => (ig, [warning label err])
  end.

Definition gitignore_rules (startPath : string) (ig : Ignore) : Ignore * list string :=
  let gitignorePath := path_join startPath ".gitignore" in
  if existsSync gitignorePath then load_file ".gitignore" gitignorePath ig else (ig, []).

Fixpoint load_all (startPath : string) (ignoreFiles : list string) (ig : Ignore)
  : Ignore * list string :=
  match ignoreFiles with
  | [] => (ig, [])
  | ignoreFile :: rest =>
      let filePath := path_join startPath ignoreFile in
      let r1 := if Values.is_file filePath then load_file ignoreFile filePath ig
                else (ig, []) in
      let r2 := load_all startPath rest (fst r1) in
      (fst r2, snd r1 ++ snd r2)
  end.

Definition allignore_rules (startPath : string) (ig : Ignore) : Ignore * list string :=
  match readdirSync startPath with
  | Throw _ => (ig, [])
  | Ok files =>
      load_all startPath
        (filter (fun name => startsWith name "." && endsWith name "ignore") files) ig
  end.

(** The object and the warnings after the loader the flags select. *)
Definition loaded_rules (startPath : string) (options : TreeOptions) (ig : Ignore)
  : Ignore * list string :=
  if opt_allignore options then allignore_rules startPath ig
  else if opt_gitignore options then gitignore_rules startPath ig
  else (ig, []).

(** The exclude pattern is given to [add] when it is a non-empty string. *)
Definition with_exclude (exclude : option string) (ig : Ignore) : Ignore :=
  match exclude with
  | Some EmptyString => ig
  | Some pattern => ig ++ [pattern]
  | None => ig
  end.

(** The exception of [add] on the exclude pattern, when the engine rejects
    it. *)
Definition exclude_failure (exclude : option string) (ig : Ignore) : option Exn :=
  match exclude with
  | Some EmptyString => None
  | Some pattern => add_throws ig pattern
  | None => None
  end.

Definition setup_rules (startPath : string) (options : TreeOptions) (ig : Ignore)
  : Ignore * list string :=
  let r := loaded_rules startPath options ig in
  (with_exclude (opt_exclude options) (fst r), snd r).

(** The exception [setupIgnoreRules] throws, if it throws. *)
Definition setup_failure (startPath : string) (options : TreeOptions) (ig : Ignore)
  : option Exn :=
  match exclude_failure (opt_exclude options) (fst (loaded_rules startPath options ig)) with
  | Some err => Some (GitignoreParseError startPath err)
  | None => None
  end.

(** The configuration of the generator, when the constructor returns. *)
Definition config_of (argv : TreeOptions) : TreeGeneratorConfig :=
  let startPath := path_resolve (opt_path argv) in
  mkConfig startPath
    (match opt_depth argv with Some depth => Finite depth | None => Infinity end)
    (fst (setup_rules startPath argv ignore_new)).

(** The exception the constructor throws, if it throws. *)
Definition failure_of (argv : TreeOptions) : option Exn :=
  setup_failure (path_resolve (opt_path argv)) argv ignore_new.

Definition warnings_of (argv : TreeOptions) : list string :=
  snd (setup_rules (path_resolve (opt_path argv)) argv ignore_new).

Definition root_line (config : TreeGeneratorConfig) : Line :=
  mkLine AtRoot (chalk_blue_bold (path_basename (startPath config))).

Definition summary_line (s : TreeStats) : Line :=
  mkLine AtSummary (chalk_green (TreeGenerator.summary_text s)).

Definition invalid_path_text (config : TreeGeneratorConfig) : string :=
  chalk_red ("Error [INVALID_PATH_ERROR]: Invalid path: " +++ startPath config).

End WithHost.
End Run.

(** What [generate] does, from the lines of the walk. *)
Definition generate_result {H : Host} (fuel : nat) (config : TreeGeneratorConfig)
    (m : Machine) : Outcome unit * Machine :=
  if Values.is_directory (startPath config) then
    let r := Trace.walk_lines fuel config (startPath config) "" 1 in
    let m1 := emit (Run.root_line config :: snd r) m in
    match fst r with
    | Returned _ => (Returned tt, emit [Run.summary_line (tg_stats m1)] m1)
    | _ => (OutOfFuel, m1)
    end
  else (Exited 1, Run.warn [Run.invalid_path_text config] m).

(** ** An in-memory host

    A directory tree held in a table from paths to nodes, behind the same
    interface.  Paths are absolute and joined with a slash; colours are off. *)

Module Mem.

Inductive Node :=
| Dir (children : list string)
| File (content : string)
| LockedDir
| LockedFile.

Definition FS := list (string * Node).

Fixpoint lookup (fs : FS) (p : string) : option Node :=
  match fs with
  | [] => None
  | (q, n) :: fs' => if String.eqb p q then Some n else lookup fs' p
  end.

Definition stat (fs : FS) (p : string) : Result Stats :=
  match lookup fs p with
  | Some (Dir _) | Some LockedDir => Ok (mkStats KDirectory)
  | Some (File _) | Some LockedFile => Ok (mkStats KFile)
  | None => Throw (Error ("ENOENT: no such file or directory, stat '" +++ p +++ "'"))
  end.

Definition readdir (fs : FS) (p : string) : Result (list string) :=
  match lookup fs p with
  | Some (Dir children) => Ok children
  | Some LockedDir => Throw (Error ("EACCES: permission denied, scandir '" +++ p +++ "'"))
  | Some _ => Throw (Error ("ENOTDIR: not a directory, scandir '" +++ p +++ "'"))
  | None => Throw (Error ("ENOENT: no such file or directory, scandir '" +++ p +++ "'"))
  end.

Definition exists_ (fs : FS) (p : string) : bool :=
  match lookup fs p with Some _ => true | None => false end.

Definition readFile (fs : FS) (p : string) : Result string :=
  match lookup fs p with
  | Some (File content) => Ok content
  | Some LockedFile => Throw (Error ("EACCES: permission denied, open '" +++ p +++ "'"))
  | Some _ => Throw (Error ("EISDIR: illegal operation on a directory, read"))
  | None => Throw (Error ("ENOENT: no such file or directory, open '" +++ p +++ "'"))
  end.

Definition join (a b : string) : string := a +++ "/" +++ b.

Definition relative (from to : string) : string :=
  if String.prefix (from +++ "/") to
  then substring (String.length from + 1) (String.length to) to
  else to.

Fixpoint has_slash (s : string) : bool :=
  match s with
  | EmptyString => false
  | String c s' => Ascii.eqb c "/" || has_slash s'
  end.

Fixpoint basename (s : string) : string :=
  match s with
  | EmptyString => EmptyString
  | String c s' =>
      if has_slash s' then basename s'
      else if Ascii.eqb c "/" then s' else s
  end.

(** A small rule language: [*suffix] matches a base name ending in
    [suffix]; any other rule matches a path or a base name equal to it. *)
Definition rule_matches (p rule : string) : bool :=
  match rule with
  | String "*" suffix => endsWith (basename p) suffix
  | _ => String.eqb rule p || String.eqb rule (basename p)
  end.

(** What this engine rejects: a pattern with the character class
    [[\d-a]], whose range is out of order, and a path made of dots.  It
    keeps nothing of a pattern it rejected. *)
Fixpoint contains (needle s : string) : bool :=
  String.prefix needle s
  || match s with
     | EmptyString => false
     | String _ s' => contains needle s'
     end.

Definition rejected (pattern : string) : bool := contains "[\d-a]" pattern.

Definition add_check (ig : Ignore) (pattern : string) : option Exn :=
  if rejected pattern
  then Some (Error "Invalid regular expression: Range out of order in character class")
  else None.

Definition matches_some (ig : Ignore) (p : string) : bool :=
  existsb (rule_matches p) (filter (fun pattern => negb (rejected pattern)) ig).

Fixpoint dots_only (s : string) : bool :=
  match s with
  | EmptyString => true
  | String c s' => Ascii.eqb c "." && dots_only s'
  end.

Definition ignores_check (ig : Ignore) (p : string) : Result bool :=
  if dots_only p
  then Throw (Error ("path should be a `path.relative()`d string, but got '" +++ p +++ "'"))
  else Ok (matches_some ig p).

(** Collation by keys: the names are compared through the lexicographic
    order of their keys. *)
Fixpoint lex (k1 k2 : list nat) : Z :=
  match k1, k2 with
  | [], [] => 0
  | [], _ :: _ => -1
  | _ :: _, [] => 1
  | a :: k1', b :: k2' =>
      match Nat.compare a b with
      | Lt => -1
      | Gt => 1
      | Eq => lex k1' k2'
      end
  end.

Fixpoint code_units (s : string) : list nat :=
  match s with
  | EmptyString => []
  | String c s' => nat_of_ascii c :: code_units s'
  end.

(** The order of the code units. *)
Definition collate_units (a b : string) : Z := lex (code_units a) (code_units b).

(** Canonical composition, for the one pair used below: [e] followed by the
    combining acute accent (U+0301) is the precomposed U+00E9. *)
Fixpoint compose (k : list nat) : list nat :=
  match k with
  | 101 :: 204 :: 129 :: k' => 195 :: 169 :: compose k'
  | a :: k' => a :: compose k'
  | [] => []
  end%nat.

(** A collation that honours canonical equivalence, as [localeCompare]
    must (ECMA-262, String.prototype.localeCompare): canonically equivalent
    names compare as 0. *)
Definition collate_canonical (a b : string) : Z :=
  lex (compose (code_units a)) (compose (code_units b)).

Definition host (fs : FS) (collate : string -> string -> Z) : Host := {|
  statSync := stat fs;
  readdirSync := readdir fs;
  existsSync := exists_ fs;
  readFileSync := readFile fs;
  path_join := join;
  path_relative := relative;
  path_resolve := fun p => p;
  path_basename := basename;
  add_throws := add_check;
  ignores := ignores_check;
  localeCompare := collate;
  chalk_blue_bold := fun s => s;
  chalk_red := fun s => s;
  chalk_green := fun s => s
|}.

(** The texts on the standard output. *)
Definition stdout (r : Outcome unit * Machine) : list string :=
  map text (console_out (snd r)).

Definition run (fs : FS) (collate : string -> string -> Z) (fuel : nat) (argv : TreeOptions)
  : Outcome unit * Machine :=
  @main (host fs collate) fuel argv initial.

(** The tree of the test suite: [test/test-dir]. *)
Definition test_dir : FS :=
  [ ("/test-dir", Dir ["file1.txt"; "subdir"]);
    ("/test-dir/file1.txt", File "one");
    ("/test-dir/subdir", Dir ["file2.txt"]);
    ("/test-dir/subdir/file2.txt", File "two") ].

Definition plain (p : string) : TreeOptions := mkTreeOptions p None None false false.

End Mem.

(** ** Vocabulary of the properties *)

(** [a] may stand before [b] in a list sorted by [cmp]. *)
Definition not_after {A : Type} (cmp : A -> A -> Z) (a b : A) : Prop := cmp a b <= 0.

(** [y] ties with [z] under [cmp]. *)
Definition tied {A : Type} (cmp : A -> A -> Z) (z y : A) : bool := cmp z y =? 0.

(** An entry without its is-last flag. *)
Definition forget_last (entry : FileEntry) : FileEntry := with_isLast entry false.

(** The order of the code units of two names, the order of [<] on strings. *)
Definition string_le (a b : string) : Prop := Mem.lex (Mem.code_units a) (Mem.code_units b) <= 0.

(** [e] has the kind of [z] and a name that compares equal to that of [z]. *)
Definition same_rank {H : Host} (z e : FileEntry) : bool :=
  Bool.eqb (isDirectory z) (isDirectory e) && (localeCompare (name z) (name e) =? 0).

(** The names of a list are ascending in the locale order. *)
Definition names_ascending {H : Host} (l : list FileEntry) : Prop :=
  StronglySorted (fun a b => localeCompare (name a) (name b) <= 0) l.

(** Among the entries of one kind whose names compare equal, the earlier
    one has the smaller name in the order of the code units. *)
Definition ties_in_string_order {H : Host} (l : list FileEntry) : Prop :=
  forall i j a b,
    nth_error l i = Some a -> nth_error l j = Some b -> (i < j)%nat ->
    isDirectory a = isDirectory b ->
    localeCompare (name a) (name b) = 0 ->
    string_le (name a) (name b).

(** ** Two names that are canonically equivalent

    U+00E9, and [e] followed by U+0301, in UTF-8; and a directory that holds
    a file of each name, listed in this order. *)

Definition e_precomposed : string :=
  String (ascii_of_nat 195) (String (ascii_of_nat 169) EmptyString).

Definition e_combining : string :=
  String "e" (String (ascii_of_nat 204) (String (ascii_of_nat 129) EmptyString)).

Definition accents_fs : Mem.FS :=
  [ ("/d", Mem.Dir [e_precomposed; e_combining]);
    (Mem.join "/d" e_precomposed, Mem.File "");
    (Mem.join "/d" e_combining, Mem.File "") ].

Definition accents_config : TreeGeneratorConfig := mkConfig "/d" Infinity [].

Definition test_config : TreeGeneratorConfig := mkConfig "/test-dir" Infinity [].

(** The entries below a directory, whatever the maximum depth: [entry] is
    found at nesting level [level], to be printed with [prefix'], when the
    listing of [currentPath] (walked at [currentDepth] with [prefix]) holds
    it, or holds a directory below which it is found. *)
Inductive ListedFrom {H : Host} (config : TreeGeneratorConfig)
  : string -> string -> Z -> Z -> string -> FileEntry -> Prop :=
| Listed_here currentPath prefix currentDepth contents entry :
    TreeGenerator.getDirectoryContents config currentPath = Ok contents ->
    hasErrors contents = false ->
    In entry (entries contents) ->
    ListedFrom config currentPath prefix currentDepth currentDepth prefix entry
| Listed_below currentPath prefix currentDepth contents dir level prefix' entry :
    TreeGenerator.getDirectoryContents config currentPath = Ok contents ->
    hasErrors contents = false ->
    In dir (entries contents) ->
    isDirectory dir = true ->
    ListedFrom config (fullPath dir)
      (TreeGenerator.getNextPrefix prefix (isLast dir)) (currentDepth + 1)
      level prefix' entry ->
    ListedFrom config currentPath prefix currentDepth level prefix' entry.

(** The entries below the start path; its direct children are at level 1. *)
Definition Listed {H : Host} (config : TreeGeneratorConfig)
    (level : Z) (prefix : string) (entry : FileEntry) : Prop :=
  ListedFrom config (startPath config) "" 1 level prefix entry.

(** [line] is the line of an entry, printed at [level]. *)
Definition entry_at (line : Line) (level : Z) (entry : FileEntry) : Prop :=
  site line = AtEntry level entry.

(** Both filters let [entry] through. *)
Definition passes {H : Host} (config : TreeGeneratorConfig) (entry : FileEntry) : Prop :=
  Array_includes FilterUtils.systemFiles (name entry) = false /\
  ignores (ignoreRules config) (path_relative (startPath config) (fullPath entry)) = Ok false.

(** A tree with a directory that cannot be listed, and a file after it. *)
Definition locked_fs : Mem.FS :=
  [ ("/r", Mem.Dir ["locked"; "z.txt"]);
    ("/r/locked", Mem.LockedDir);
    ("/r/z.txt", Mem.File "z") ].

Definition locked_config : TreeGeneratorConfig := mkConfig "/r" Infinity [].


(** [line] is an entry line of nesting level [level]. *)
Definition at_level (level : Z) (line : Line) : bool :=
  match site line with
  | AtEntry l _ => l =? level
  | _ => false
  end.

(** The name of an entry as it is printed. *)
Definition styled {H : Host} (entry : FileEntry) : string :=
  if isDirectory entry then chalk_blue_bold (name entry) else name entry.

(** The options of [--exclude "*.txt"] on the test tree, and the entry of
    [file1.txt]. *)
Definition exclude_txt : TreeOptions :=
  mkTreeOptions "/test-dir" None (Some "*.txt") false false.

Definition file1_entry : FileEntry :=
  mkFileEntry "file1.txt" "/test-dir/file1.txt" false true (Some (mkStats KFile)).

(** The options of [--exclude ""] on the test tree. *)
Definition exclude_empty : TreeOptions :=
  mkTreeOptions "/test-dir" None (Some "") false false.


(** The prefix of a line is a run of segments, one per level above it. *)
Definition is_segment (s : string) : Prop :=
  s = TREE_SYMBOLS.SPACE \/ s = TREE_SYMBOLS.VERTICAL.

Definition indent (segments : list string) : string :=
  fold_right String.append EmptyString segments.

(** ** The command line: [convertToTreeOptions]

    [args] is what [yargs] parsed, a record of values of any type;
    [rawArgs] is [hideBin(process.argv)]. *)

Inductive JsValue :=
| JsUndefined
| JsBoolean (b : bool)
| JsNumber (n : Z)
| JsString (s : string).

(** [Boolean(v)] *)
Definition Boolean (v : JsValue) : bool :=
  match v with
  | JsUndefined => false
  | JsBoolean b => b
  | JsNumber n => negb (n =? 0)
  | JsString s => negb (String.eqb s "")
  end.

Record ParsedArgs := mkParsedArgs {
  arg_depth : JsValue;
  arg_exclude : JsValue;
  arg_gitignore : JsValue;
  arg_allignore : JsValue
}.

Definition DEFAULT_TREE_OPTIONS_path : string := ".".

Definition convertToTreeOptions (rawArgs : list string) (args : ParsedArgs) : TreeOptions :=
  let firstPos := find (fun a => negb (startsWith a "-")) rawArgs in
  let rawPath := match firstPos with
                 | Some p => p
                 | None => DEFAULT_TREE_OPTIONS_path
                 end in
  mkTreeOptions rawPath
    (match arg_depth args with JsNumber n => Some n | _ => None end)
    (match arg_exclude args with JsString s => Some s | _ => None end)
    (Boolean (arg_gitignore args))
    (Boolean (arg_allignore args)).

(** ** Vocabulary of the further properties *)

(** A name of the start directory that [loadAllIgnoreRules] reads: it
    starts with a dot, ends in [ignore] and is a regular file. *)
Definition ignore_candidate {H : Host} (startPath ignoreFile : string) : bool :=
  startsWith ignoreFile "." && endsWith ignoreFile "ignore"
  && match FileUtils.isFile (path_join startPath ignoreFile) with
     | Ok b => b
     | Throw _ => false
     end.

(** The configuration with another maximum depth. *)
Definition with_depth (config : TreeGeneratorConfig) (maxDepth : Depth) : TreeGeneratorConfig :=
  mkConfig (startPath config) maxDepth (ignoreRules config).

(** [line] is not below level [n]. *)
Definition within (n : Z) (line : Line) : bool :=
  match site line with
  | AtEntry level _ => level <=? n
  | AtListingError level => level <=? n
  | _ => true
  end.

(** The number of error lines among [ls]. *)
Definition error_lines (ls : list Line) : nat :=
  List.length (filter (fun l => match site l with
                                | AtListingError _ => true
                                | _ => false
                                end) ls).

(** A start directory with three ignore files: one readable, one that
    cannot be read, and one that is a directory. *)
Definition ignore_fs : Mem.FS :=
  [ ("/p", Mem.Dir [".gitignore"; "a.log"; ".npmignore"; ".dockerignore"; "b.txt"]);
    ("/p/.gitignore", Mem.File "*.log");
    ("/p/a.log", Mem.File "log");
    ("/p/.npmignore", Mem.LockedFile);
    ("/p/.dockerignore", Mem.Dir []);
    ("/p/b.txt", Mem.File "b") ].

(** An entry line hangs in the lines [ls] of a walk of [currentPath] at
    [currentDepth]: its entry is a child of [currentPath] at that depth, or
    a child of a directory whose line is in [ls], one level up. *)
Definition hangs {H : Host} (ls : list Line) (currentPath : string) (currentDepth : Z)
    (line : Line) : Prop :=
  forall level entry,
    site line = AtEntry level entry ->
    (level = currentDepth /\ fullPath entry = path_join currentPath (name entry)) \/
    (currentDepth < level /\
     exists dirline dir,
       In dirline ls /\ site dirline = AtEntry (level - 1) dir /\
       isDirectory dir = true /\
       fullPath entry = path_join (fullPath dir) (name entry)).


(** The listing of [currentPath] fails with [err]: one of the calls in the
    [try] of [getDirectoryContents] throws it, [readdirSync] on the
    directory or a filter on an entry. *)
Definition listing_fails {H : Host} (config : TreeGeneratorConfig) (currentPath : string)
    (err : Exn) : Prop :=
  Res.bind (readdirSync currentPath) (fun entries =>
  Res.bind (TreeGenerator.createFileEntries currentPath entries) (fun fileEntries =>
  TreeGenerator.filterAndSortEntries config fileEntries)) = Throw err.

(** A tree with a name made of dots, whose relative path the ignore engine
    rejects. *)
Definition dots_fs : Mem.FS :=
  [ ("/r", Mem.Dir ["a.txt"; "..."; "sub"]);
    ("/r/a.txt", Mem.File "a");
    ("/r/...", Mem.File "dots");
    ("/r/sub", Mem.Dir ["b.txt"]);
    ("/r/sub/b.txt", Mem.File "b") ].

(** The options of [--exclude "[\d-a]"], a pattern the engine rejects, on
    the test tree and on a path that does not exist. *)
Definition exclude_rejected : TreeOptions :=
  mkTreeOptions "/test-dir" None (Some "[\d-a]") false false.

Definition exclude_rejected_nowhere : TreeOptions :=
  mkTreeOptions "/nowhere" None (Some "[\d-a]") false false.

(** * Properties *)

(** ** The guarded calls never throw *)

Section Guarded.
Context {H : Host}.

Lemma getFileStat_value (filePath : string) :
  FileUtils.getFileStat filePath = Ok (Values.stat_of filePath).
Proof.
  unfold FileUtils.getFileStat, Values.stat_of.
  destruct (statSync filePath); reflexivity.
Qed.

Lemma isDirectory_value (filePath : string) :
  FileUtils.isDirectory filePath = Ok (Values.is_directory filePath).
Proof.
  unfold FileUtils.isDirectory. rewrite getFileStat_value. reflexivity.
Qed.

Lemma isFile_value (filePath : string) :
  FileUtils.isFile filePath = Ok (Values.is_file filePath).
Proof.
  unfold FileUtils.isFile. rewrite getFileStat_value. reflexivity.
Qed.

Lemma mapi_from_total {A B : Type} (f : A -> nat -> Result B) (g : A -> nat -> B) :
  (forall x i, f x i = Ok (g x i)) ->
  forall l index, Res.mapi_from f index l = Ok (Array_mapi_from g index l).
Proof.
  intros Hfg l. induction l as [|x l IH]; intros index; simpl.
  - reflexivity.
  - rewrite Hfg. simpl. rewrite IH. reflexivity.
Qed.

Lemma createFileEntries_value (currentPath : string) (entries : list string) :
  TreeGenerator.createFileEntries currentPath entries
  = Ok (Values.file_entries currentPath entries).
Proof.
  unfold TreeGenerator.createFileEntries, Res.mapi, Values.file_entries, Array_mapi.
  apply mapi_from_total. intros x i.
  rewrite isDirectory_value, getFileStat_value. reflexivity.
Qed.

Lemma filter_first_throw {A : Type} (f : A -> Result bool) (l : list A) :
  Res.filter f l
  = match first_throw f l with
    | Some err => Throw err
    | None => Ok (filter (fun x => lets_through (f x)) l)
    end.
Proof.
  induction l as [|x l IH]; simpl.
  - reflexivity.
  - destruct (f x) as [keep|err]; simpl.
    + rewrite IH. destruct (first_throw f l); reflexivity.
    + reflexivity.
Qed.

Lemma first_throw_system (l : list FileEntry) :
  first_throw FilterUtils.createSystemFileFilter l = None.
Proof.
  induction l as [|x l IH]; simpl; auto.
Qed.

Lemma filterAndSortEntries_value (config : TreeGeneratorConfig) (entries : list FileEntry) :
  TreeGenerator.filterAndSortEntries config entries
  = match Values.filter_failure config entries with
    | Some err => Throw err
    | None => Ok (Values.sorted_entries config entries)
    end.
Proof.
  unfold TreeGenerator.filterAndSortEntries, Values.filter_failure, Values.sorted_entries,
    kept.
  cbn [Res.for_of Res.bind].
  rewrite (filter_first_throw FilterUtils.createSystemFileFilter), first_throw_system.
  cbn [Res.bind]. rewrite filter_first_throw.
  destruct (first_throw _ _); reflexivity.
Qed.

Lemma filterAndSortEntries_returned (config : TreeGeneratorConfig)
    (entries group : list FileEntry) :
  TreeGenerator.filterAndSortEntries config entries = Ok group ->
  Values.filter_failure config entries = None /\
  group = Values.sorted_entries config entries.
Proof.
  rewrite filterAndSortEntries_value.
  destruct (Values.filter_failure config entries); [discriminate|].
  intros Heq. injection Heq as <-. auto.
Qed.

Lemma getDirectoryContents_value (config : TreeGeneratorConfig) (currentPath : string) :
  TreeGenerator.getDirectoryContents config currentPath
  = Ok (Values.contents_of config currentPath).
Proof.
  unfold TreeGenerator.getDirectoryContents, Values.contents_of.
  destruct (readdirSync currentPath) as [names|err]; simpl.
  - rewrite createFileEntries_value. simpl. rewrite filterAndSortEntries_value.
    destruct (Values.filter_failure _ _); reflexivity.
  - reflexivity.
Qed.

(** A listing without error: the names were read, no filter threw, and
    the entries are the sorted ones. *)
Lemma contents_of_listed (config : TreeGeneratorConfig) (currentPath : string) :
  hasErrors (Values.contents_of config currentPath) = false ->
  exists names,
    readdirSync currentPath = Ok names /\
    Values.filter_failure config (Values.file_entries currentPath names) = None /\
    Values.contents_of config currentPath
    = mkDirectoryContents
        (Values.sorted_entries config (Values.file_entries currentPath names)) false None.
Proof.
  unfold Values.contents_of.
  destruct (readdirSync currentPath) as [names|err]; [|discriminate].
  destruct (Values.filter_failure config (Values.file_entries currentPath names)) eqn:Hf;
    [discriminate|].
  intros _. exists names. rewrite Hf. auto.
Qed.

(** A listing with an error has no entry. *)
Lemma contents_of_error (config : TreeGeneratorConfig) (currentPath : string) :
  hasErrors (Values.contents_of config currentPath) = true ->
  entries (Values.contents_of config currentPath) = [].
Proof.
  unfold Values.contents_of.
  destruct (readdirSync currentPath) as [names|err]; [|reflexivity].
  destruct (Values.filter_failure _ _); [reflexivity|discriminate].
Qed.

End Guarded.

(** C9.  The entry classifier never raises: [getFileStat], [isDirectory] and
    [isFile] return on every path, and when the underlying [statSync] fails
    the metadata is absent and the path is neither a directory nor a file. *)
Theorem C9_classifier_never_raises :
  forall (H : Host) (filePath : string),
    (exists st d f,
        FileUtils.getFileStat filePath = Ok st /\
        FileUtils.isDirectory filePath = Ok d /\
        FileUtils.isFile filePath = Ok f) /\
    (forall e, statSync filePath = Throw e ->
        FileUtils.getFileStat filePath = Ok None /\
        FileUtils.isDirectory filePath = Ok false /\
        FileUtils.isFile filePath = Ok false).
Proof.
  intros H filePath. split.
  - exists (Values.stat_of filePath), (Values.is_directory filePath),
      (Values.is_file filePath).
    rewrite getFileStat_value, isDirectory_value, isFile_value. auto.
  - intros e He.
    rewrite getFileStat_value, isDirectory_value, isFile_value.
    unfold Values.is_directory, Values.is_file, Values.stat_of.
    rewrite He. auto.
Qed.

(** A path that is not in the test tree: [statSync] throws, the classifier
    answers. *)
Lemma C9_witness :
  let H := Mem.host Mem.test_dir Mem.collate_units in
  FileUtils.getFileStat "/test-dir/gone" = Ok None /\
  FileUtils.isDirectory "/test-dir/gone" = Ok false /\
  FileUtils.isFile "/test-dir/gone" = Ok false.
Proof.
  intros H.
  apply (proj2 (C9_classifier_never_raises H "/test-dir/gone")
               (Error "ENOENT: no such file or directory, stat '/test-dir/gone'")).
  reflexivity.
Defined.

(** ** The stable sort *)

Section SortFacts.
Variable A : Type.
Variable cmp : A -> A -> Z.

Lemma sort_insert_perm (x : A) (l : list A) :
  Permutation (sort_insert cmp x l) (x :: l).
Proof.
  induction l as [|y l IH]; simpl.
  - apply Permutation_refl.
  - destruct (cmp x y <=? 0).
    + apply Permutation_refl.
    + eapply Permutation_trans; [apply perm_skip, IH | apply perm_swap].
Qed.

Lemma Array_sort_perm (l : list A) : Permutation (Array_sort cmp l) l.
Proof.
  induction l as [|x l IH]; simpl.
  - constructor.
  - eapply Permutation_trans; [apply sort_insert_perm | apply perm_skip, IH].
Qed.

Lemma Array_sort_length (l : list A) : List.length (Array_sort cmp l) = List.length l.
Proof. apply Permutation_length, Array_sort_perm. Qed.

Hypothesis cmp_consistent : consistent cmp.

Lemma cmp_sym0 (a b : A) : cmp a b = 0 -> cmp b a = 0.
Proof.
  destruct cmp_consistent as [Hflip _]. intros Hab.
  destruct (Z.lt_trichotomy (cmp b a) 0) as [Hlt|[Heq|Hgt]]; auto.
  - apply Hflip in Hlt. lia.
  - apply Hflip in Hgt. lia.
Qed.

Lemma sort_insert_sorted (x : A) (l : list A) :
  StronglySorted (not_after cmp) l -> StronglySorted (not_after cmp) (sort_insert cmp x l).
Proof.
  destruct cmp_consistent as [Hflip Htrans].
  induction l as [|y l IH]; intros Hs; simpl.
  - repeat constructor.
  - inversion Hs as [|? ? Hs' Hall]; subst.
    destruct (cmp x y <=? 0) eqn:Hxy.
    + apply Z.leb_le in Hxy. constructor; [exact Hs|].
      constructor; [exact Hxy|].
      eapply Forall_impl; [|exact Hall].
      intros z Hyz. exact (Htrans _ _ _ Hxy Hyz).
    + apply Z.leb_gt in Hxy. constructor; [apply IH, Hs'|].
      eapply Permutation_Forall; [apply Permutation_sym, sort_insert_perm|].
      constructor; [|exact Hall].
      unfold not_after. apply Hflip in Hxy. lia.
Qed.

Lemma Array_sort_sorted (l : list A) : StronglySorted (not_after cmp) (Array_sort cmp l).
Proof.
  induction l as [|x l IH]; simpl.
  - constructor.
  - apply sort_insert_sorted, IH.
Qed.

(** Stability: the elements that tie with [z] stay in the order they had. *)
Lemma sort_insert_stable (z x : A) (l : list A) :
  filter (tied cmp z) (sort_insert cmp x l)
  = filter (tied cmp z) (x :: l).
Proof.
  destruct cmp_consistent as [Hflip Htrans].
  induction l as [|y l IH]; [reflexivity|].
  cbn [sort_insert]. destruct (cmp x y <=? 0) eqn:Hxy; [reflexivity|].
  apply Z.leb_gt in Hxy.
  cbn [filter] in *. unfold tied in *.
  destruct (cmp z x =? 0) eqn:Hzx; destruct (cmp z y =? 0) eqn:Hzy;
    rewrite IH; try reflexivity.
  exfalso. apply Z.eqb_eq in Hzx, Hzy.
  apply cmp_sym0 in Hzx.
  assert (cmp x y <= 0) by (apply (Htrans x z y); lia). lia.
Qed.

Lemma Array_sort_stable (z : A) (l : list A) :
  filter (tied cmp z) (Array_sort cmp l) = filter (tied cmp z) l.
Proof.
  induction l as [|x l IH]; [reflexivity|].
  cbn [Array_sort fold_right]. fold (Array_sort cmp l).
  rewrite sort_insert_stable. cbn [filter]. rewrite IH. reflexivity.
Qed.

End SortFacts.

(** ** The filter and sort pipeline *)

Section Relabel.
Variable g : nat -> bool.

Lemma mapi_relabel_forget (l : list FileEntry) (k : nat) :
  map forget_last (Array_mapi_from (fun e i => with_isLast e (g i)) k l)
  = map forget_last l.
Proof.
  revert k. induction l as [|x l IH]; intros k; simpl; [reflexivity|].
  rewrite IH. reflexivity.
Qed.

Lemma mapi_relabel_length (l : list FileEntry) (k : nat) :
  List.length (Array_mapi_from (fun e i => with_isLast e (g i)) k l) = List.length l.
Proof.
  revert k. induction l as [|x l IH]; intros k; simpl; [reflexivity|].
  rewrite IH. reflexivity.
Qed.

Lemma mapi_relabel_Forall (P : FileEntry -> Prop) (l : list FileEntry) (k : nat) :
  (forall e b, P e -> P (with_isLast e b)) ->
  Forall P l ->
  Forall P (Array_mapi_from (fun e i => with_isLast e (g i)) k l).
Proof.
  intros HP Hl. revert k.
  induction Hl as [|x l Hx Hl IH]; intros k; simpl; constructor; auto.
Qed.

Lemma mapi_relabel_In (l : list FileEntry) (k : nat) (e : FileEntry) :
  In e (Array_mapi_from (fun e i => with_isLast e (g i)) k l) ->
  exists e', In e' l /\ e = with_isLast e' (isLast e).
Proof.
  revert k. induction l as [|x l IH]; intros k; simpl; [tauto|].
  intros [Heq|Hin].
  - exists x. split; [now left|]. subst e. reflexivity.
  - destruct (IH _ Hin) as (e' & He' & Heq). exists e'. split; [now right|exact Heq].
Qed.

Lemma mapi_relabel_In_rev (l : list FileEntry) (k : nat) (e' : FileEntry) :
  In e' l ->
  exists b, In (with_isLast e' b) (Array_mapi_from (fun e i => with_isLast e (g i)) k l).
Proof.
  revert k. induction l as [|x l IH]; intros k; simpl; [tauto|].
  intros [Heq|Hin].
  - subst x. exists (g k). now left.
  - destruct (IH (S k) Hin) as (b & Hb). exists b. now right.
Qed.

Lemma mapi_relabel_sorted (R : FileEntry -> FileEntry -> Prop) (l : list FileEntry) (k : nat) :
  (forall a b x y, R a b -> R (with_isLast a x) (with_isLast b y)) ->
  StronglySorted R l ->
  StronglySorted R (Array_mapi_from (fun e i => with_isLast e (g i)) k l).
Proof.
  intros HR Hs. revert k.
  induction Hs as [|x l Hs IH Hall]; intros k; simpl; constructor.
  - apply IH.
  - apply mapi_relabel_Forall; [|eapply Forall_impl; [|exact Hall]].
    + intros e b He. apply (HR _ _ (g k) b) in He. exact He.
    + intros a Ha. apply (HR x a (g k) (isLast a)) in Ha.
      replace (with_isLast a (isLast a)) with a in Ha by (destruct a; reflexivity).
      exact Ha.
Qed.

Lemma mapi_relabel_filter (f : FileEntry -> bool) (l : list FileEntry) (k : nat) :
  (forall e b, f (with_isLast e b) = f e) ->
  map forget_last (filter f (Array_mapi_from (fun e i => with_isLast e (g i)) k l))
  = map forget_last (filter f l).
Proof.
  intros Hf. revert k. induction l as [|x l IH]; intros k; simpl; [reflexivity|].
  rewrite Hf. destruct (f x); simpl; rewrite IH; reflexivity.
Qed.

End Relabel.

Section Pipeline.
Context {H : Host}.

Lemma createDefaultSort_consistent :
  consistent localeCompare -> consistent SortUtils.createDefaultSort.
Proof.
  intros [Hflip Htrans]. unfold SortUtils.createDefaultSort. split.
  - intros a b. destruct (isDirectory a), (isDirectory b); simpl;
      try apply Hflip; lia.
  - intros a b c. destruct (isDirectory a), (isDirectory b), (isDirectory c); simpl;
      try apply Htrans; lia.
Qed.

Lemma createDefaultSort_with_isLast (a b : FileEntry) (x y : bool) :
  SortUtils.createDefaultSort (with_isLast a x) (with_isLast b y)
  = SortUtils.createDefaultSort a b.
Proof. reflexivity. Qed.

Lemma tied_same_rank (z e : FileEntry) :
  tied SortUtils.createDefaultSort z e = same_rank z e.
Proof.
  unfold tied, same_rank, SortUtils.createDefaultSort.
  destruct (isDirectory z), (isDirectory e); reflexivity.
Qed.

Lemma sorted_entries_unfold (config : TreeGeneratorConfig) (entries : list FileEntry) :
  Values.sorted_entries config entries
  = let sorted := Array_sort SortUtils.createDefaultSort (kept config entries) in
    Array_mapi_from
      (fun e i => with_isLast e (Z.of_nat i =? Z.of_nat (List.length sorted) - 1)) 0 sorted.
Proof. reflexivity. Qed.

Lemma sorted_entries_forget (config : TreeGeneratorConfig) (entries : list FileEntry) :
  map forget_last (Values.sorted_entries config entries)
  = map forget_last (Array_sort SortUtils.createDefaultSort (kept config entries)).
Proof. rewrite sorted_entries_unfold. apply mapi_relabel_forget. Qed.

Lemma sorted_entries_perm (config : TreeGeneratorConfig) (entries : list FileEntry) :
  Permutation (map forget_last (Values.sorted_entries config entries))
              (map forget_last (kept config entries)).
Proof.
  rewrite sorted_entries_forget. apply Permutation_map, Array_sort_perm.
Qed.

Lemma sorted_entries_length (config : TreeGeneratorConfig) (entries : list FileEntry) :
  List.length (Values.sorted_entries config entries)
  = List.length (kept config entries).
Proof.
  rewrite sorted_entries_unfold. cbv zeta.
  rewrite mapi_relabel_length. apply Array_sort_length.
Qed.

(** An entry of the result is an entry that passed both filters, with its
    flag set anew. *)
Lemma sorted_entries_In (config : TreeGeneratorConfig) (entries : list FileEntry)
    (e : FileEntry) :
  In e (Values.sorted_entries config entries) ->
  exists e', In e' (kept config entries) /\ e = with_isLast e' (isLast e).
Proof.
  rewrite sorted_entries_unfold. cbv zeta. intros Hin.
  apply mapi_relabel_In in Hin. destruct Hin as (e' & He' & Heq).
  exists e'. split; [|exact Heq].
  eapply Permutation_in; [apply Array_sort_perm|exact He'].
Qed.

Lemma sorted_entries_In_rev (config : TreeGeneratorConfig) (entries : list FileEntry)
    (e' : FileEntry) :
  In e' (kept config entries) ->
  exists b, In (with_isLast e' b) (Values.sorted_entries config entries).
Proof.
  intros Hin. rewrite sorted_entries_unfold. cbv zeta.
  apply mapi_relabel_In_rev.
  eapply Permutation_in; [apply Permutation_sym, Array_sort_perm|exact Hin].
Qed.

Lemma kept_In (config : TreeGeneratorConfig) (entries : list FileEntry) (e : FileEntry) :
  In e (kept config entries) <->
  In e entries /\
  FilterUtils.createSystemFileFilter e = Ok true /\
  FilterUtils.createIgnoreFilter (ignoreRules config) (startPath config) e = Ok true.
Proof.
  unfold kept. rewrite !filter_In.
  unfold FilterUtils.createSystemFileFilter.
  destruct (FilterUtils.createIgnoreFilter (ignoreRules config) (startPath config) e)
    as [[|]|err];
    destruct (Array_includes FilterUtils.systemFiles (name e)); simpl;
    intuition congruence.
Qed.

Lemma sorted_entries_passes (config : TreeGeneratorConfig) (entries : list FileEntry)
    (e : FileEntry) :
  In e (Values.sorted_entries config entries) ->
  Array_includes FilterUtils.systemFiles (name e) = false /\
  ignores (ignoreRules config) (path_relative (startPath config) (fullPath e)) = Ok false.
Proof.
  intros Hin. apply sorted_entries_In in Hin.
  destruct Hin as (e' & He' & Heq). apply kept_In in He'.
  destruct He' as (_ & Hsys & Hig).
  unfold FilterUtils.createSystemFileFilter in Hsys.
  unfold FilterUtils.createIgnoreFilter in Hig.
  rewrite Heq. simpl. split.
  - injection Hsys as Hsys. apply negb_true_iff in Hsys. exact Hsys.
  - destruct (ignores _ _) as [[|]|err]; simpl in Hig; congruence.
Qed.

Lemma sorted_entries_sorted (config : TreeGeneratorConfig) (entries : list FileEntry) :
  consistent localeCompare ->
  StronglySorted (not_after SortUtils.createDefaultSort)
    (Values.sorted_entries config entries).
Proof.
  intros Hc. rewrite sorted_entries_unfold. cbv zeta.
  apply mapi_relabel_sorted.
  - intros a b x y Hab. unfold not_after in *.
    rewrite createDefaultSort_with_isLast. exact Hab.
  - apply Array_sort_sorted, createDefaultSort_consistent, Hc.
Qed.

Lemma sorted_entries_stable (config : TreeGeneratorConfig) (entries : list FileEntry)
    (z : FileEntry) :
  consistent localeCompare ->
  map forget_last (filter (same_rank z) (Values.sorted_entries config entries))
  = map forget_last (filter (same_rank z) (kept config entries)).
Proof.
  intros Hc. rewrite sorted_entries_unfold. cbv zeta.
  rewrite mapi_relabel_filter by reflexivity.
  rewrite <- !(filter_ext _ _ (tied_same_rank z)).
  rewrite Array_sort_stable by (apply createDefaultSort_consistent, Hc).
  reflexivity.
Qed.

(** In a list sorted by the default comparator the directories come first. *)
Lemma sorted_dirs_first (l : list FileEntry) :
  StronglySorted (not_after SortUtils.createDefaultSort) l ->
  l = filter isDirectory l ++ filter (fun e => negb (isDirectory e)) l.
Proof.
  induction 1 as [|x l Hs IH Hall]; [reflexivity|].
  simpl. destruct (isDirectory x) eqn:Hx; simpl.
  - f_equal. exact IH.
  - assert (Hfiles : Forall (fun e => isDirectory e = false) l).
    { eapply Forall_impl; [|exact Hall]. intros e He.
      unfold not_after, SortUtils.createDefaultSort in He. rewrite Hx in He.
      destruct (isDirectory e); simpl in He; [lia|reflexivity]. }
    assert (Hnil : filter isDirectory l = []).
    { clear - Hfiles. induction Hfiles as [|y l Hy _ IH]; simpl; [reflexivity|].
      rewrite Hy. exact IH. }
    assert (Hall' : filter (fun e => negb (isDirectory e)) l = l).
    { clear - Hfiles. induction Hfiles as [|y l Hy _ IH]; simpl; [reflexivity|].
      rewrite Hy. simpl. f_equal. exact IH. }
    rewrite Hnil, Hall'. reflexivity.
Qed.

Lemma sorted_filter {A : Type} (R : A -> A -> Prop) (f : A -> bool) (l : list A) :
  StronglySorted R l -> StronglySorted R (filter f l).
Proof.
  induction 1 as [|x l Hs IH Hall]; simpl; [constructor|].
  destruct (f x); [|exact IH].
  constructor; [exact IH|].
  apply Forall_forall. intros y Hy. apply filter_In in Hy.
  rewrite Forall_forall in Hall. apply Hall. tauto.
Qed.

Lemma sorted_same_kind (k : bool) (l : list FileEntry) :
  Forall (fun e => isDirectory e = k) l ->
  StronglySorted (not_after SortUtils.createDefaultSort) l ->
  names_ascending l.
Proof.
  intros Hk Hs. induction Hs as [|x l Hs IH Hall]; [constructor|].
  apply Forall_cons_iff in Hk. destruct Hk as [Hx Hl].
  constructor; [apply IH, Hl|].
  rewrite Forall_forall in *. intros y Hy.
  specialize (Hall y Hy). specialize (Hl y Hy).
  unfold not_after, SortUtils.createDefaultSort in Hall.
  rewrite Hx, Hl in Hall. destruct k; simpl in Hall; exact Hall.
Qed.

End Pipeline.

(** ** The collations of the in-memory host are consistent *)

Lemma lex_flip (k1 k2 : list nat) : Mem.lex k1 k2 < 0 <-> 0 < Mem.lex k2 k1.
Proof.
  revert k2. induction k1 as [|a k1 IH]; intros [|b k2]; simpl; try lia.
  rewrite (Nat.compare_antisym a b).
  destruct (Nat.compare a b); simpl; try lia. apply IH.
Qed.

Lemma lex_trans (k1 k2 k3 : list nat) :
  Mem.lex k1 k2 <= 0 -> Mem.lex k2 k3 <= 0 -> Mem.lex k1 k3 <= 0.
Proof.
  revert k2 k3. induction k1 as [|a k1 IH]; intros [|b k2] [|c k3]; simpl; try lia.
  destruct (Nat.compare_spec a b), (Nat.compare_spec b c), (Nat.compare_spec a c);
    try lia; subst; try lia.
  apply IH.
Qed.

Lemma collate_by_key_consistent (key : string -> list nat) :
  consistent (fun a b => Mem.lex (key a) (key b)).
Proof.
  split.
  - intros a b. apply lex_flip.
  - intros a b c. apply lex_trans.
Qed.

Lemma collate_units_consistent : consistent Mem.collate_units.
Proof. apply (collate_by_key_consistent Mem.code_units). Qed.

Lemma collate_canonical_consistent : consistent Mem.collate_canonical.
Proof. apply (collate_by_key_consistent (fun s => Mem.compose (Mem.code_units s))). Qed.

(** ** C4: the order of a sibling group *)

(** C4 (amended).  When [localeCompare] is a consistent comparator, the
    group the filter and sort pipeline returns is its directories followed by
    its files; within each kind the names ascend in the locale order; and
    the sort is stable: the entries of one kind whose names compare equal
    keep the order they had in the listing. *)
Theorem C4_ordering :
  forall (H : Host) (config : TreeGeneratorConfig) (entries group : list FileEntry),
    consistent localeCompare ->
    TreeGenerator.filterAndSortEntries config entries = Ok group ->
    let dirs := filter isDirectory group in
    let files := filter (fun e => negb (isDirectory e)) group in
    group = dirs ++ files /\
    names_ascending dirs /\
    names_ascending files /\
    (forall z, map forget_last (filter (same_rank z) group)
               = map forget_last (filter (same_rank z) (kept config entries))).
Proof.
  intros H config entries group Hc Hgroup dirs files.
  apply filterAndSortEntries_returned in Hgroup. destruct Hgroup as [_ ->].
  pose proof (sorted_entries_sorted config entries Hc) as Hs.
  split; [apply sorted_dirs_first, Hs|].
  split; [|split].
  - apply sorted_same_kind with (k := true).
    + apply Forall_forall. intros e He. apply filter_In in He. tauto.
    + apply sorted_filter, Hs.
  - apply sorted_same_kind with (k := false).
    + apply Forall_forall. intros e He. apply filter_In in He.
      destruct He as [_ He]. now apply negb_true_iff in He.
    + apply sorted_filter, Hs.
  - intros z. apply sorted_entries_stable, Hc.
Qed.

(** The listing of the test tree, under the order of the code units. *)
Lemma C4_witness :
  let H := Mem.host Mem.test_dir Mem.collate_units in
  let group := [ mkFileEntry "subdir" "/test-dir/subdir" true false (Some (mkStats KDirectory));
                 mkFileEntry "file1.txt" "/test-dir/file1.txt" false true
                   (Some (mkStats KFile)) ] in
  let dirs := filter isDirectory group in
  let files := filter (fun e => negb (isDirectory e)) group in
  group = dirs ++ files /\
  names_ascending dirs /\
  names_ascending files /\
  (forall z, map forget_last (filter (same_rank z) group)
             = map forget_last
                 (filter (same_rank z)
                    (kept test_config
                       (Values.file_entries "/test-dir" ["file1.txt"; "subdir"])))).
Proof.
  intros H group.
  apply (@C4_ordering H test_config
           (Values.file_entries "/test-dir" ["file1.txt"; "subdir"]) group).
  - exact collate_units_consistent.
  - vm_compute. reflexivity.
Defined.

(** C4 as stated fails.  The two names compare equal, the sort keeps them
    in the order of the listing, and that is not the order of the strings:
    no second key breaks the tie. *)
Lemma C4_counterexample :
  let H := Mem.host accents_fs Mem.collate_canonical in
  exists group,
    TreeGenerator.filterAndSortEntries accents_config
      (Values.file_entries "/d" [e_precomposed; e_combining]) = Ok group /\
    consistent localeCompare /\
    map name group = [e_precomposed; e_combining] /\
    localeCompare e_precomposed e_combining = 0 /\
    ~ ties_in_string_order group.
Proof.
  intros H.
  exists [ mkFileEntry e_precomposed (Mem.join "/d" e_precomposed) false false
             (Some (mkStats KFile));
           mkFileEntry e_combining (Mem.join "/d" e_combining) false true
             (Some (mkStats KFile)) ].
  split; [vm_compute; reflexivity|].
  split; [exact collate_canonical_consistent|].
  split; [vm_compute; reflexivity|]. split; [vm_compute; reflexivity|].
  intros Ht.
  specialize (Ht 0%nat 1%nat
    (mkFileEntry e_precomposed (Mem.join "/d" e_precomposed) false false
       (Some (mkStats KFile)))
    (mkFileEntry e_combining (Mem.join "/d" e_combining) false true
       (Some (mkStats KFile)))).
  vm_compute in Ht.
  apply Ht; auto.
Qed.

(** ** The program prints the lines of the walk *)

Lemma emit_nil (m : Machine) : emit [] m = m.
Proof.
  destruct m as [[d f] out err]. unfold emit. simpl.
  rewrite !Nat.add_0_r, app_nil_r. reflexivity.
Qed.

Lemma dir_lines_app (l1 l2 : list Line) :
  dir_lines (l1 ++ l2) = (dir_lines l1 + dir_lines l2)%nat.
Proof. unfold dir_lines. rewrite filter_app, length_app. reflexivity. Qed.

Lemma file_lines_app (l1 l2 : list Line) :
  file_lines (l1 ++ l2) = (file_lines l1 + file_lines l2)%nat.
Proof. unfold file_lines. rewrite filter_app, length_app. reflexivity. Qed.

Lemma emit_app (l1 l2 : list Line) (m : Machine) :
  emit (l1 ++ l2) m = emit l2 (emit l1 m).
Proof.
  unfold emit. simpl. rewrite dir_lines_app, file_lines_app, app_assoc, !Nat.add_assoc.
  reflexivity.
Qed.

Lemma emit_cons (l : Line) (ls : list Line) (m : Machine) :
  emit (l :: ls) m = emit ls (emit [l] m).
Proof. apply (emit_app [l] ls). Qed.

Lemma forEach_run {A : Type} (f : A -> M unit) (g : A -> Outcome unit * list Line)
    (l : list A) :
  (forall x, In x l -> forall m, f x m = (fst (g x), emit (snd (g x)) m)) ->
  forall m, forEach l f m
            = (fst (lines_forEach l g), emit (snd (lines_forEach l g)) m).
Proof.
  induction l as [|x l IH]; intros Hfg m; simpl.
  - unfold ret. rewrite emit_nil. reflexivity.
  - unfold bind. rewrite (Hfg x (or_introl eq_refl)).
    destruct (g x) as [[[]| | |] ls1]; simpl; try reflexivity.
    rewrite IH by (intros y Hy; apply Hfg; now right).
    destruct (lines_forEach l g) as [o ls2]. simpl.
    rewrite emit_app. reflexivity.
Qed.

Section WalkRun.
Context {H : Host}.
Variable config : TreeGeneratorConfig.

Lemma displayEntry_run (level : Z) (entry : FileEntry) (prefix : string) (m : Machine) :
  TreeGenerator.displayEntry level entry prefix m
  = (Returned tt, emit [Trace.entry_line level entry prefix] m).
Proof.
  unfold TreeGenerator.displayEntry, Trace.entry_line, Trace.entry_text, emit,
    dir_lines, file_lines.
  destruct m as [[d f] out err].
  destruct (isDirectory entry) eqn:Hd; cbn; rewrite Hd; cbn;
    rewrite ?Nat.add_0_r, ?Nat.add_1_r; reflexivity.
Qed.

Lemma error_line_run (level : Z) (prefix : string) (msg : option string) (m : Machine) :
  console_log (AtListingError level)
    (prefix +++ TREE_SYMBOLS.LAST +++ chalk_red (TreeGenerator.error_text msg)) m
  = (Returned tt, emit [Trace.error_line level prefix msg] m).
Proof.
  unfold console_log, emit, Trace.error_line, dir_lines, file_lines.
  destruct m as [[d f] out err]. cbn. rewrite !Nat.add_0_r. reflexivity.
Qed.

(** [walk] returns the outcome of [walk_lines], having printed its lines
    and counted its entry lines. *)
Lemma walk_run (fuel : nat) :
  forall (currentPath prefix : string) (currentDepth : Z) (m : Machine),
    TreeGenerator.walk fuel config currentPath prefix currentDepth m
    = (fst (Trace.walk_lines fuel config currentPath prefix currentDepth),
       emit (snd (Trace.walk_lines fuel config currentPath prefix currentDepth)) m).
Proof.
  induction fuel as [|fuel IH]; intros currentPath prefix currentDepth m.
  - simpl. unfold out_of_fuel. rewrite emit_nil. reflexivity.
  - cbn [TreeGenerator.walk Trace.walk_lines].
    destruct (depth_gt currentDepth (maxDepth config)).
    + simpl. unfold ret. rewrite emit_nil. reflexivity.
    + rewrite getDirectoryContents_value. unfold bind at 1. cbn [lift ret].
      destruct (hasErrors (Values.contents_of config currentPath)).
      * apply error_line_run.
      * apply forEach_run. intros entry _ m'.
        unfold TreeGenerator.visit, bind. rewrite displayEntry_run.
        destruct (isDirectory entry).
        -- rewrite IH.
           destruct (Trace.walk_lines fuel config (fullPath entry)
                       (TreeGenerator.getNextPrefix prefix (isLast entry))
                       (currentDepth + 1)) as [o ls].
           simpl. rewrite <- emit_cons. reflexivity.
        -- reflexivity.
Qed.

End WalkRun.

(** ** The lines of a loop over the entries *)

Section LinesForEach.
Variable A : Type.
Implicit Types (l : list A) (f g : A -> Outcome unit * list Line).

Lemma lines_forEach_ext l f g :
  (forall x, In x l -> f x = g x) -> lines_forEach l f = lines_forEach l g.
Proof.
  induction l as [|x l IH]; intros Hfg; simpl; [reflexivity|].
  rewrite (Hfg x (or_introl eq_refl)), IH; [reflexivity|].
  intros y Hy. apply Hfg. now right.
Qed.

Lemma lines_forEach_Forall (P : Line -> Prop) l f :
  (forall x, In x l -> Forall P (snd (f x))) ->
  Forall P (snd (lines_forEach l f)).
Proof.
  induction l as [|x l IH]; intros Hf; simpl; [constructor|].
  pose proof (Hf x (or_introl eq_refl)) as Hx.
  destruct (f x) as [[[]| | |] ls1]; simpl in *; try exact Hx.
  assert (Hl : Forall P (snd (lines_forEach l f)))
    by (apply IH; intros y Hy; apply Hf; now right).
  destruct (lines_forEach l f) as [o ls2]. simpl in *.
  apply Forall_app. split; assumption.
Qed.

Lemma lines_forEach_outcome l f :
  (forall x, In x l -> fst (f x) = Returned tt \/ fst (f x) = OutOfFuel) ->
  fst (lines_forEach l f) = Returned tt \/ fst (lines_forEach l f) = OutOfFuel.
Proof.
  induction l as [|x l IH]; intros Hf; simpl; [now left|].
  pose proof (Hf x (or_introl eq_refl)) as Hx.
  destruct (f x) as [[[]| | |] ls1]; simpl in *;
    try (destruct Hx; discriminate); try (now right).
  assert (Hl : fst (lines_forEach l f) = Returned tt \/ fst (lines_forEach l f) = OutOfFuel)
    by (apply IH; intros y Hy; apply Hf; now right).
  destruct (lines_forEach l f) as [o ls2]. exact Hl.
Qed.

Lemma lines_forEach_returned l f :
  (forall x, In x l -> fst (f x) = Returned tt) ->
  lines_forEach l f = (Returned tt, List.concat (map (fun x => snd (f x)) l)).
Proof.
  induction l as [|x l IH]; intros Hf; simpl; [reflexivity|].
  pose proof (Hf x (or_introl eq_refl)) as Hx.
  rewrite IH by (intros y Hy; apply Hf; now right).
  destruct (f x) as [[[]| | |] ls1]; simpl in *; try discriminate. reflexivity.
Qed.

Lemma lines_forEach_returned_inv l f :
  fst (lines_forEach l f) = Returned tt ->
  forall x, In x l -> fst (f x) = Returned tt.
Proof.
  induction l as [|x l IH]; simpl; intros Hr y Hy; [tauto|].
  destruct (f x) as [[[]| | |] ls1] eqn:Hfx; simpl in Hr; try discriminate.
  destruct Hy as [->|Hy]; [rewrite Hfx; reflexivity|].
  apply IH; [|exact Hy].
  destruct (lines_forEach l f) as [o ls2]. exact Hr.
Qed.

End LinesForEach.

(** ** What a walk prints *)

Section WalkLines.
Context {H : Host}.
Variable config : TreeGeneratorConfig.

(** The lines of one entry of a listing: its own line, then the walk of
    the directory it names. *)
Lemma walk_lines_step (fuel : nat) (currentPath prefix : string) (currentDepth : Z) :
  Trace.walk_lines (S fuel) config currentPath prefix currentDepth
  = if depth_gt currentDepth (maxDepth config) then (Returned tt, [])
    else
      let contents := Values.contents_of config currentPath in
      if hasErrors contents then
        (Returned tt, [Trace.error_line currentDepth prefix (errorMessage contents)])
      else
        lines_forEach (entries contents) (fun entry =>
          if isDirectory entry then
            (fst (Trace.walk_lines fuel config (fullPath entry)
                    (TreeGenerator.getNextPrefix prefix (isLast entry)) (currentDepth + 1)),
             Trace.entry_line currentDepth entry prefix
               :: snd (Trace.walk_lines fuel config (fullPath entry)
                         (TreeGenerator.getNextPrefix prefix (isLast entry))
                         (currentDepth + 1)))
          else (Returned tt, [Trace.entry_line currentDepth entry prefix])).
Proof.
  cbn [Trace.walk_lines]. rewrite getDirectoryContents_value.
  destruct (depth_gt currentDepth (maxDepth config)); [reflexivity|].
  cbv zeta. destruct (hasErrors (Values.contents_of config currentPath)); [reflexivity|].
  apply lines_forEach_ext. intros entry _.
  destruct (isDirectory entry); [|reflexivity].
  destruct (Trace.walk_lines fuel config (fullPath entry)
              (TreeGenerator.getNextPrefix prefix (isLast entry)) (currentDepth + 1)).
  reflexivity.
Qed.

(** A walk returns or is still running: it never throws. *)
Lemma walk_lines_outcome (fuel : nat) :
  forall currentPath prefix currentDepth,
    fst (Trace.walk_lines fuel config currentPath prefix currentDepth) = Returned tt \/
    fst (Trace.walk_lines fuel config currentPath prefix currentDepth) = OutOfFuel.
Proof.
  induction fuel as [|fuel IH]; intros currentPath prefix currentDepth.
  - now right.
  - rewrite walk_lines_step.
    destruct (depth_gt currentDepth (maxDepth config)); [now left|].
    cbv zeta. destruct (hasErrors (Values.contents_of config currentPath)); [now left|].
    apply lines_forEach_outcome. intros entry _.
    destruct (isDirectory entry); [apply IH|now left].
Qed.

(** Soundness: a walk prints only lines it is entitled to. *)
Lemma walk_lines_sound (fuel : nat) :
  forall currentPath prefix currentDepth,
    Forall (Trace.Emits config currentPath prefix currentDepth)
      (snd (Trace.walk_lines fuel config currentPath prefix currentDepth)).
Proof.
  induction fuel as [|fuel IH]; intros currentPath prefix currentDepth.
  - constructor.
  - rewrite walk_lines_step.
    destruct (depth_gt currentDepth (maxDepth config)) eqn:Hd; [constructor|].
    cbv zeta.
    pose proof (getDirectoryContents_value config currentPath) as Hc.
    destruct (hasErrors (Values.contents_of config currentPath)) eqn:He.
    + constructor; [|constructor]. eapply Trace.Emits_error; eassumption.
    + apply lines_forEach_Forall. intros entry Hin.
      assert (Hline : Trace.Emits config currentPath prefix currentDepth
                        (Trace.entry_line currentDepth entry prefix))
        by (eapply Trace.Emits_entry; eassumption).
      destruct (isDirectory entry) eqn:Hdir; simpl.
      * constructor; [exact Hline|].
        eapply Forall_impl; [|apply IH].
        intros line Hl. eapply Trace.Emits_below; eassumption.
      * constructor; [exact Hline|constructor].
Qed.

(** Completeness: a walk that returns has printed every line it is
    entitled to. *)
Lemma walk_lines_complete (fuel : nat) :
  forall currentPath prefix currentDepth line,
    fst (Trace.walk_lines fuel config currentPath prefix currentDepth) = Returned tt ->
    Trace.Emits config currentPath prefix currentDepth line ->
    In line (snd (Trace.walk_lines fuel config currentPath prefix currentDepth)).
Proof.
  induction fuel as [|fuel IH]; intros currentPath prefix currentDepth line Hr Hemits.
  - discriminate.
  - rewrite walk_lines_step in *.
    pose proof (getDirectoryContents_value config currentPath) as Hc.
    destruct Hemits as [p pre d contents entry Hd Hg He Hin
                       |p pre d contents Hd Hg He
                       |p pre d contents entry line Hd Hg He Hin Hdir Hsub];
      rewrite Hd in *; cbv zeta in *;
      rewrite Hc in Hg; injection Hg as <-; rewrite He in *.
    + pose proof (lines_forEach_returned_inv _ _ Hr) as Hall.
      rewrite lines_forEach_returned by exact Hall.
      simpl. apply in_concat. eexists. split.
      * apply in_map_iff. exists entry. split; [reflexivity|exact Hin].
      * destruct (isDirectory entry); simpl; now left.
    + now left.
    + pose proof (lines_forEach_returned_inv _ _ Hr) as Hall.
      rewrite lines_forEach_returned by exact Hall.
      simpl. apply in_concat. eexists. split.
      * apply in_map_iff. exists entry. split; [reflexivity|exact Hin].
      * specialize (Hall entry Hin). cbv beta in Hall |- *.
        rewrite Hdir in Hall |- *. simpl in Hall |- *.
        right. apply IH; assumption.
Qed.

(** More fuel does not change a walk that has returned. *)
Lemma walk_lines_more_fuel (fuel : nat) :
  forall currentPath prefix currentDepth,
    fst (Trace.walk_lines fuel config currentPath prefix currentDepth) = Returned tt ->
    Trace.walk_lines (S fuel) config currentPath prefix currentDepth
    = Trace.walk_lines fuel config currentPath prefix currentDepth.
Proof.
  induction fuel as [|fuel IH]; intros currentPath prefix currentDepth Hr.
  - discriminate.
  - rewrite (walk_lines_step (S fuel)). rewrite walk_lines_step in Hr |- *.
    destruct (depth_gt currentDepth (maxDepth config)); [reflexivity|].
    cbv zeta in *.
    destruct (hasErrors (Values.contents_of config currentPath)); [reflexivity|].
    pose proof (lines_forEach_returned_inv _ _ Hr) as Hall.
    apply lines_forEach_ext. intros entry Hin. specialize (Hall entry Hin).
    cbv beta in Hall. destruct (isDirectory entry); [|reflexivity].
    simpl in Hall. rewrite IH by exact Hall. reflexivity.
Qed.

Lemma walk_lines_fuel_le (fuel fuel' : nat) currentPath prefix currentDepth :
  (fuel <= fuel')%nat ->
  fst (Trace.walk_lines fuel config currentPath prefix currentDepth) = Returned tt ->
  Trace.walk_lines fuel' config currentPath prefix currentDepth
  = Trace.walk_lines fuel config currentPath prefix currentDepth.
Proof.
  induction 1 as [|fuel' Hle IH]; intros Hr; [reflexivity|].
  rewrite walk_lines_more_fuel; rewrite IH; auto.
Qed.

(** Under a finite maximum depth the walk returns, given fuel for the
    levels that remain. *)
Lemma walk_lines_bounded (n : Z) (fuel : nat) :
  maxDepth config = Finite n ->
  forall currentPath prefix currentDepth,
    (Z.to_nat (n + 1 - currentDepth) < fuel)%nat ->
    fst (Trace.walk_lines fuel config currentPath prefix currentDepth) = Returned tt.
Proof.
  intros Hmax. induction fuel as [|fuel IH]; intros currentPath prefix currentDepth Hf.
  - lia.
  - rewrite walk_lines_step. rewrite Hmax. cbn [depth_gt].
    destruct (n <? currentDepth) eqn:Hn; [reflexivity|].
    apply Z.ltb_ge in Hn. cbv zeta.
    destruct (hasErrors (Values.contents_of config currentPath)); [reflexivity|].
    rewrite lines_forEach_returned; [reflexivity|].
    intros entry _. destruct (isDirectory entry); [|reflexivity].
    simpl. apply IH. lia.
Qed.

End WalkLines.

(** ** The set-up of the ignore rules *)

Section Setup.
Context {H : Host}.

Lemma warn_nil (m : Machine) : Run.warn [] m = m.
Proof. destruct m. unfold Run.warn. simpl. rewrite app_nil_r. reflexivity. Qed.

Lemma warn_app (ws1 ws2 : list string) (m : Machine) :
  Run.warn (ws1 ++ ws2) m = Run.warn ws2 (Run.warn ws1 m).
Proof. unfold Run.warn. simpl. rewrite app_assoc. reflexivity. Qed.

Lemma load_file_run (label filePath : string) (ig : Ignore) (m : Machine) :
  Build.try_catch
    (content <- Build.lift (readFileSync filePath) ;; Build.add content)%build
    (fun err =>
       Build.console_error
         (chalk_red ("Error reading " +++ label +++ " file: " +++ Exn_message err)))
    (Build.mkState ig m)
  = (Returned tt,
     Build.mkState (fst (Run.load_file label filePath ig))
       (Run.warn (snd (Run.load_file label filePath ig)) m)).
Proof.
  unfold Run.load_file, Build.try_catch, Build.bind, Build.add, ignore_add.
  destruct (readFileSync filePath) as [content|err]; cbn.
  - destruct (add_throws ig content) as [err|]; cbn.
    + reflexivity.
    + rewrite warn_nil. reflexivity.
  - reflexivity.
Qed.

Lemma loadGitignoreRules_run (startPath : string) (ig : Ignore) (m : Machine) :
  TreeGenerator.loadGitignoreRules startPath (Build.mkState ig m)
  = (Returned tt,
     Build.mkState (fst (Run.gitignore_rules startPath ig))
       (Run.warn (snd (Run.gitignore_rules startPath ig)) m)).
Proof.
  unfold TreeGenerator.loadGitignoreRules, Run.gitignore_rules. cbv zeta.
  destruct (existsSync (path_join startPath ".gitignore")).
  - apply (load_file_run ".gitignore").
  - simpl. rewrite warn_nil. reflexivity.
Qed.

Lemma loadAllIgnoreRules_run (startPath : string) (ig : Ignore) (m : Machine) :
  TreeGenerator.loadAllIgnoreRules startPath (Build.mkState ig m)
  = (Returned tt,
     Build.mkState (fst (Run.allignore_rules startPath ig))
       (Run.warn (snd (Run.allignore_rules startPath ig)) m)).
Proof.
  unfold TreeGenerator.loadAllIgnoreRules, Run.allignore_rules.
  destruct (readdirSync startPath) as [files|err];
    [|simpl; rewrite warn_nil; reflexivity].
  generalize (filter (fun name => startsWith name "." && endsWith name "ignore") files).
  intros ignoreFiles. revert ig m.
  induction ignoreFiles as [|ignoreFile rest IH]; intros ig m.
  - simpl. rewrite warn_nil. reflexivity.
  - cbn [Build.for_of Run.load_all]. unfold Build.bind at 1. unfold Build.bind at 1.
    rewrite isFile_value. cbn [Build.lift Build.ret].
    destruct (Values.is_file (path_join startPath ignoreFile)).
    + rewrite load_file_run. rewrite IH. cbn [fst snd].
      rewrite warn_app. reflexivity.
    + cbn [Build.ret fst snd]. rewrite IH. cbn [app]. reflexivity.
Qed.

Lemma loaded_rules_run (startPath : string) (options : TreeOptions) (ig : Ignore)
    (m : Machine) :
  (if opt_allignore options then TreeGenerator.loadAllIgnoreRules startPath
   else if opt_gitignore options then TreeGenerator.loadGitignoreRules startPath
   else Build.ret tt) (Build.mkState ig m)
  = (Returned tt,
     Build.mkState (fst (Run.loaded_rules startPath options ig))
       (Run.warn (snd (Run.loaded_rules startPath options ig)) m)).
Proof.
  unfold Run.loaded_rules.
  destruct (opt_allignore options); [|destruct (opt_gitignore options)].
  - apply loadAllIgnoreRules_run.
  - apply loadGitignoreRules_run.
  - cbn. rewrite warn_nil. reflexivity.
Qed.

(** [setupIgnoreRules] throws when [add] rejects the exclude pattern, and
    then only; the object holds what it was given. *)
Lemma setupIgnoreRules_run (startPath : string) (options : TreeOptions) (ig : Ignore)
    (m : Machine) :
  TreeGenerator.setupIgnoreRules startPath options (Build.mkState ig m)
  = (match Run.setup_failure startPath options ig with
     | Some err => Raised err
     | None => Returned tt
     end,
     Build.mkState (fst (Run.setup_rules startPath options ig))
       (Run.warn (snd (Run.setup_rules startPath options ig)) m)).
Proof.
  unfold TreeGenerator.setupIgnoreRules, Run.setup_rules, Run.setup_failure,
    Build.try_catch.
  unfold Build.bind at 1. rewrite loaded_rules_run. cbv zeta. cbn [fst snd].
  destruct (Run.loaded_rules startPath options ig) as [ig1 ws]. cbn [fst snd].
  destruct (opt_exclude options) as [[|c pattern]|]; cbn; try reflexivity.
  unfold Build.add, ignore_add. cbn.
  destruct (add_throws ig1 (String c pattern)); reflexivity.
Qed.

(** The constructor returns the configuration, or throws what
    [setupIgnoreRules] throws; it prints nothing but the warnings of the
    ignore files, and the counters start at zero. *)
Lemma new_run (argv : TreeOptions) (m : Machine) :
  TreeGenerator.new argv m
  = (match Run.failure_of argv with
     | Some err => Raised err
     | None => Returned (Run.config_of argv)
     end,
     Run.warn (Run.warnings_of argv)
       (mkMachine (mkTreeStats 0 0) (console_out m) (console_err m))).
Proof.
  unfold TreeGenerator.new, Run.config_of, Run.warnings_of, Run.failure_of. cbv zeta.
  unfold bind at 1. unfold set_stats at 1. unfold bind at 1. unfold build.
  rewrite setupIgnoreRules_run.
  destruct (Run.setup_failure _ _ _); reflexivity.
Qed.


Lemma new_returned (argv : TreeOptions) (m : Machine) (config : TreeGeneratorConfig) :
  fst (TreeGenerator.new argv m) = Returned config ->
  Run.failure_of argv = None /\ config = Run.config_of argv.
Proof.
  rewrite new_run. cbn [fst].
  destruct (Run.failure_of argv); [discriminate|].
  intros Heq. injection Heq as <-. auto.
Qed.

End Setup.

(** ** The run of [generate] and of the program *)

Section GenerateRun.
Context {H : Host}.

Lemma console_log_plain (s : Site) (t : string) (m : Machine) :
  match s with AtEntry _ _ => False | _ => True end ->
  console_log s t m = (Returned tt, emit [mkLine s t] m).
Proof.
  intros Hs. unfold console_log, emit, dir_lines, file_lines.
  destruct m as [[d f] out err]. destruct s; try contradiction; cbn;
    rewrite !Nat.add_0_r; reflexivity.
Qed.

Lemma generate_run (fuel : nat) (config : TreeGeneratorConfig) (m : Machine) :
  TreeGenerator.generate fuel config m = generate_result fuel config m.
Proof.
  unfold TreeGenerator.generate, generate_result, try_catch.
  unfold bind at 1. rewrite isDirectory_value. cbn [lift ret].
  destruct (Values.is_directory (startPath config)); cbn [negb].
  - unfold bind at 1. cbn [ret]. unfold bind at 1.
    rewrite (console_log_plain AtRoot) by exact I.
    unfold bind at 1. rewrite walk_run.
    fold (Run.root_line config).
    rewrite <- emit_cons. cbv zeta.
    destruct (walk_lines_outcome config fuel (startPath config) "" 1) as [Hr|Hr];
      rewrite Hr; [|reflexivity].
    unfold bind, get_stats.
    rewrite (console_log_plain AtSummary) by exact I. reflexivity.
  - unfold bind at 1. unfold throw at 1. unfold InvalidPathError.
    unfold bind, console_error, process_exit. reflexivity.
Qed.

(** The program: the constructor throws and ends the process, or
    [generate] runs with the configuration built. *)
Lemma main_run (fuel : nat) (argv : TreeOptions) :
  main fuel argv initial
  = match Run.failure_of argv with
    | Some err => (Raised err, Run.warn (Run.warnings_of argv) initial)
    | None =>
        generate_result fuel (Run.config_of argv)
          (Run.warn (Run.warnings_of argv) initial)
    end.
Proof.
  unfold main, bind. rewrite new_run.
  destruct (Run.failure_of argv); [reflexivity|].
  rewrite generate_run. reflexivity.
Qed.

End GenerateRun.

(** ** The lines a walk is entitled to *)

Section EmitsFacts.
Context {H : Host}.
Variable config : TreeGeneratorConfig.

Lemma depth_gt_mono (d d' : Z) :
  d <= d' -> depth_gt d' (maxDepth config) = false -> depth_gt d (maxDepth config) = false.
Proof.
  unfold depth_gt. destruct (maxDepth config); [|reflexivity].
  rewrite !Z.ltb_ge. lia.
Qed.

(** Every line of a walk started at [currentDepth] is an entry line or an
    error line, of a level from [currentDepth] up to the maximum depth. *)
Lemma Emits_level currentPath prefix currentDepth line :
  Trace.Emits config currentPath prefix currentDepth line ->
  exists level,
    (site line = AtListingError level \/ exists entry, site line = AtEntry level entry) /\
    currentDepth <= level /\ depth_gt level (maxDepth config) = false.
Proof.
  induction 1 as [p pre d contents entry Hd Hg He Hin
                 |p pre d contents Hd Hg He
                 |p pre d contents entry line Hd Hg He Hin Hdir Hsub IH].
  - exists d. split; [right; exists entry; reflexivity|]. split; [lia|exact Hd].
  - exists d. split; [left; reflexivity|]. split; [lia|exact Hd].
  - destruct IH as (level & Hsite & Hle & Hgt). exists level.
    split; [exact Hsite|]. split; [lia|exact Hgt].
Qed.

(** An entry line of a walk is the line of a listed entry, with the prefix
    of its directory, and the entry passed the filters. *)
Lemma Emits_entry_listed currentPath prefix currentDepth line level entry :
  Trace.Emits config currentPath prefix currentDepth line ->
  site line = AtEntry level entry ->
  exists prefix',
    line = Trace.entry_line level entry prefix' /\
    ListedFrom config currentPath prefix currentDepth level prefix' entry /\
    passes config entry.
Proof.
  induction 1 as [p pre d contents e Hd Hg He Hin
                 |p pre d contents Hd Hg He
                 |p pre d contents e line Hd Hg He Hin Hdir Hsub IH]; intros Hsite.
  - simpl in Hsite. injection Hsite as <- <-.
    exists pre. split; [reflexivity|]. split; [eapply Listed_here; eassumption|].
    rewrite getDirectoryContents_value in Hg. injection Hg as <-.
    destruct (contents_of_listed config p He) as (names & _ & _ & Hc).
    rewrite Hc in Hin. cbn [entries] in Hin.
    eapply sorted_entries_passes. exact Hin.
  - discriminate.
  - destruct (IH Hsite) as (prefix' & Hline & Hlisted & Hpass).
    exists prefix'. split; [exact Hline|]. split; [|exact Hpass].
    eapply Listed_below; eassumption.
Qed.

Lemma ListedFrom_level currentPath prefix currentDepth level prefix' entry :
  ListedFrom config currentPath prefix currentDepth level prefix' entry ->
  currentDepth <= level.
Proof. induction 1; lia. Qed.

(** A listed entry within the maximum depth is to be printed. *)
Lemma ListedFrom_Emits currentPath prefix currentDepth level prefix' entry :
  ListedFrom config currentPath prefix currentDepth level prefix' entry ->
  depth_gt level (maxDepth config) = false ->
  Trace.Emits config currentPath prefix currentDepth (Trace.entry_line level entry prefix').
Proof.
  induction 1 as [p pre d contents e Hg He Hin
                 |p pre d contents dir level prefix' e Hg He Hin Hdir Hsub IH];
    intros Hgt.
  - eapply Trace.Emits_entry; eauto.
  - pose proof (ListedFrom_level Hsub) as Hle.
    eapply Trace.Emits_below; eauto.
    apply depth_gt_mono with (d' := level); [lia|exact Hgt].
Qed.

Lemma append_empty_r (s : string) : s +++ "" = s.
Proof. induction s as [|c s IH]; simpl; [reflexivity|]. rewrite IH. reflexivity. Qed.

Lemma append_assoc' (a b c : string) : (a +++ b) +++ c = a +++ (b +++ c).
Proof. induction a as [|x a IH]; simpl; [reflexivity|]. rewrite IH. reflexivity. Qed.

(** The prefix of a listed entry extends the prefix of the walk by one
    segment per level crossed. *)
Lemma ListedFrom_prefix currentPath prefix currentDepth level prefix' entry :
  ListedFrom config currentPath prefix currentDepth level prefix' entry ->
  exists segments,
    Z.of_nat (List.length segments) = level - currentDepth /\
    Forall is_segment segments /\
    prefix' = prefix +++ indent segments.
Proof.
  induction 1 as [p pre d contents e Hg He Hin
                 |p pre d contents dir level prefix' e Hg He Hin Hdir Hsub IH].
  - exists []. split; [simpl; lia|]. split; [constructor|].
    simpl. rewrite append_empty_r. reflexivity.
  - destruct IH as (segments & Hlen & Hall & Heq).
    exists ((if isLast dir then TREE_SYMBOLS.SPACE else TREE_SYMBOLS.VERTICAL) :: segments).
    split; [cbn [List.length]; lia|]. split.
    + constructor; [|exact Hall]. unfold is_segment. destruct (isLast dir); auto.
    + rewrite Heq. unfold TreeGenerator.getNextPrefix. cbn [indent fold_right].
      apply append_assoc'.
Qed.

(** In a tree of finite height the walk returns, whatever the maximum
    depth: no directory is listed [h] levels or more below the walk. *)
Lemma walk_lines_height (fuel : nat) :
  forall (h : nat) currentPath prefix currentDepth,
    (forall level prefix' entry,
        ListedFrom config currentPath prefix currentDepth level prefix' entry ->
        isDirectory entry = true ->
        level < currentDepth + Z.of_nat h) ->
    (h < fuel)%nat ->
    fst (Trace.walk_lines fuel config currentPath prefix currentDepth) = Returned tt.
Proof.
  induction fuel as [|fuel IH]; intros h currentPath prefix currentDepth Hheight Hfuel.
  - lia.
  - rewrite walk_lines_step.
    destruct (depth_gt currentDepth (maxDepth config)); [reflexivity|].
    cbv zeta.
    destruct (hasErrors (Values.contents_of config currentPath)) eqn:He; [reflexivity|].
    rewrite lines_forEach_returned; [reflexivity|].
    intros entry Hin. destruct (isDirectory entry) eqn:Hdir; [|reflexivity].
    cbn [fst].
    assert (Hhere : ListedFrom config currentPath prefix currentDepth currentDepth prefix entry)
      by (eapply Listed_here; eauto using getDirectoryContents_value).
    pose proof (Hheight _ _ _ Hhere Hdir) as Hpos.
    apply (IH (h - 1)%nat); [|lia].
    intros level prefix' entry' Hsub Hdir'.
    assert (Hbelow : ListedFrom config currentPath prefix currentDepth level prefix' entry')
      by (eapply Listed_below; eauto using getDirectoryContents_value).
    specialize (Hheight _ _ _ Hbelow Hdir'). lia.
Qed.

End EmitsFacts.

(** ** The shape of a run *)

Section RunShape.
Context {H : Host}.


(** A run ends in the constructor, which threw, having printed nothing;
    or stops at an invalid start path, having printed nothing; or prints
    the root line and the lines of the walk, and then, when the walk has
    returned, the summary of the counters. *)
Lemma main_cases (fuel : nat) (argv : TreeOptions) :
  let config := Run.config_of argv in
  let r := main fuel argv initial in
  let w := Trace.walk_lines fuel config (startPath config) "" 1 in
  (exists err,
     Run.failure_of argv = Some err /\
     fst r = Raised err /\
     console_out (snd r) = [] /\
     tg_stats (snd r) = mkTreeStats 0 0 /\
     console_err (snd r) = Run.warnings_of argv)
  \/
  (Run.failure_of argv = None /\
   Values.is_directory (startPath config) = false /\
   fst r = Exited 1 /\
   console_out (snd r) = [] /\
   tg_stats (snd r) = mkTreeStats 0 0 /\
   console_err (snd r) = Run.warnings_of argv ++ [Run.invalid_path_text config])
  \/
  (Run.failure_of argv = None /\
   Values.is_directory (startPath config) = true /\
   tg_stats (snd r) = mkTreeStats (dir_lines (snd w)) (file_lines (snd w)) /\
   console_err (snd r) = Run.warnings_of argv /\
   ((fst w = Returned tt /\ fst r = Returned tt /\
     console_out (snd r)
     = Run.root_line config :: snd w
       ++ [Run.summary_line (mkTreeStats (dir_lines (snd w)) (file_lines (snd w)))])
    \/
    (fst w = OutOfFuel /\ fst r = OutOfFuel /\
     console_out (snd r) = Run.root_line config :: snd w))).
Proof.
  intros config r w. subst r. rewrite main_run. fold config.
  destruct (Run.failure_of argv) as [err|];
    [left; exists err; repeat split; reflexivity|right].
  unfold generate_result. fold w.
  destruct (Values.is_directory (startPath config)); [right|left].
  - split; [reflexivity|]. split; [reflexivity|].
    destruct (walk_lines_outcome config fuel (startPath config) "" 1) as [Hr|Hr];
      fold w in Hr; rewrite Hr; cbn.
    + split; [|split; [reflexivity|left]].
      * unfold dir_lines, file_lines. cbn. rewrite !Nat.add_0_r. reflexivity.
      * split; [reflexivity|]. split; [reflexivity|].
        reflexivity.
    + split; [|split; [reflexivity|right]]; auto.
  - repeat split; reflexivity.
Qed.

End RunShape.

Section RunLines.
Context {H : Host}.

Lemma lines_with_frame (root summary : Line) (ls : list Line) :
  match site root with AtEntry _ _ => False | _ => True end ->
  match site summary with AtEntry _ _ => False | _ => True end ->
  dir_lines (root :: ls ++ [summary]) = dir_lines ls /\
  file_lines (root :: ls ++ [summary]) = file_lines ls /\
  dir_lines (root :: ls) = dir_lines ls /\
  file_lines (root :: ls) = file_lines ls.
Proof.
  intros Hr Hs.
  change (root :: ls ++ [summary]) with ([root] ++ ls ++ [summary]).
  change (root :: ls) with ([root] ++ ls).
  rewrite !dir_lines_app, !file_lines_app.
  unfold dir_lines, file_lines. cbn.
  destruct (site root); try contradiction; destruct (site summary); try contradiction;
    cbn; lia.
Qed.

(** Every line of a run is the root line, the summary, or a line of the
    walk from the start path. *)
Lemma main_line (fuel : nat) (argv : TreeOptions) (line : Line) :
  let config := Run.config_of argv in
  In line (console_out (snd (main fuel argv initial))) ->
  site line = AtRoot \/ site line = AtSummary \/
  Trace.Emits config (startPath config) "" 1 line.
Proof.
  intros config Hin.
  pose proof (walk_lines_sound config fuel (startPath config) "" 1) as Hsound.
  rewrite Forall_forall in Hsound.
  destruct (main_cases fuel argv)
    as [(err & _ & _ & Hout & _)|[(_ & _ & _ & Hout & _)|(_ & _ & _ & _ & Hshape)]].
  - rewrite Hout in Hin. contradiction.
  - rewrite Hout in Hin. contradiction.
  - fold config in Hshape.
    destruct Hshape as [(_ & _ & Hout)|(_ & _ & Hout)]; rewrite Hout in Hin.
    + destruct Hin as [<-|Hin]; [now left|].
      apply in_app_or in Hin. destruct Hin as [Hin|[<-|[]]]; [|now (right; left)].
      right; right. now apply Hsound.
    + destruct Hin as [<-|Hin]; [now left|].
      right; right. now apply Hsound.
Qed.

(** An entry line of a run is the line of an entry listed below the start
    path, that passed the filters, at a level from 1 to the maximum depth. *)
Lemma main_entry_line (fuel : nat) (argv : TreeOptions) (line : Line)
    (level : Z) (entry : FileEntry) :
  let config := Run.config_of argv in
  In line (console_out (snd (main fuel argv initial))) ->
  entry_at line level entry ->
  1 <= level /\ depth_gt level (maxDepth config) = false /\
  passes config entry /\
  exists prefix, line = Trace.entry_line level entry prefix /\ Listed config level prefix entry.
Proof.
  intros config Hin Hat. unfold entry_at in Hat.
  destruct (main_line fuel argv line Hin) as [Hs|[Hs|Hemits]];
    try (rewrite Hs in Hat; discriminate).
  fold config in Hemits.
  destruct (Emits_level Hemits) as (level' & Hsite & Hle & Hgt).
  assert (level' = level) as ->.
  { destruct Hsite as [Hs|(e & Hs)]; rewrite Hs in Hat; congruence. }
  destruct (Emits_entry_listed Hemits Hat) as (pre & Hline & Hlisted & Hpass).
  split; [lia|]. split; [exact Hgt|]. split; [exact Hpass|].
  exists pre. split; assumption.
Qed.

End RunLines.


(** The counters are the numbers of entry lines printed so far. *)
Lemma main_counts {H : Host} (fuel : nat) (argv : TreeOptions) :
  let r := main fuel argv initial in
  dirCount (tg_stats (snd r)) = dir_lines (console_out (snd r)) /\
  fileCount (tg_stats (snd r)) = file_lines (console_out (snd r)).
Proof.
  intros r.
  set (config := Run.config_of argv).
  set (w := Trace.walk_lines fuel config (startPath config) "" 1).
  assert (Hframe := fun summary =>
            lines_with_frame (Run.root_line config) summary (snd w) I).
  assert (Hcases := main_cases fuel argv). cbv zeta in Hcases.
  fold r config w in Hcases.
  destruct Hcases
    as [(err & _ & _ & Hout & Hst & _)
       |[(_ & _ & _ & Hout & Hst & _)
        |(_ & _ & Hst & _ & [(_ & _ & Hout)|(_ & _ & Hout)])]]; rewrite Hst, Hout.
  - split; reflexivity.
  - split; reflexivity.
  - destruct (Hframe (Run.summary_line (mkTreeStats (dir_lines (snd w)) (file_lines (snd w)))) I)
      as (Hd & Hf & _). split; symmetry; assumption.
  - destruct (Hframe (Run.root_line config) I) as (_ & _ & Hd & Hf).
    split; symmetry; assumption.
Qed.

(** ** C1: the counters and the lines *)



(** ** C2: the depth law *)

(** C2.  With maximum depth [n], every entry line ever printed has a level
    from 1 to [n]; the level of a line shows in its text, indented by one
    segment per level above it; and the run ends once the fuel exceeds [n]:
    it returns, leaves through [process.exit(1)], or its constructor threw.
    When the constructor returns, the run walks with its configuration,
    whose maximum depth is the option, or infinite when the option is
    unset.  A walk called at a depth above the maximum returns at once and
    prints nothing.  A run that returns has printed the line of every entry
    listed below the start path at a level within the maximum depth; with
    the depth unset no level is beyond it, so every listed entry is
    printed; and the run does end when the tree holds no directory below
    level [h] and the fuel exceeds [h].  The entries of the listing of the
    start path are at level 1. *)
Theorem C2_depth_law :
  forall (H : Host) (fuel : nat) (argv : TreeOptions),
    let r := main fuel argv initial in
    (forall n line level entry,
        opt_depth argv = Some n ->
        In line (console_out (snd r)) -> entry_at line level entry ->
        1 <= level <= n) /\
    (forall line level entry,
        In line (console_out (snd r)) -> entry_at line level entry ->
        exists segments,
          Z.of_nat (List.length segments) = level - 1 /\
          Forall is_segment segments /\
          text line = indent segments +++ TreeGenerator.connector_of entry +++ styled entry) /\
    (forall n,
        opt_depth argv = Some n -> (Z.to_nat n < fuel)%nat ->
        fst r = Returned tt \/ fst r = Exited 1 \/
        exists err, fst (TreeGenerator.new argv initial) = Raised err /\ fst r = Raised err) /\
    (forall config,
        fst (TreeGenerator.new argv initial) = Returned config ->
        maxDepth config
        = match opt_depth argv with Some n => Finite n | None => Infinity end /\
        (forall fuel' currentPath prefix currentDepth m,
            depth_gt currentDepth (maxDepth config) = true ->
            TreeGenerator.walk (S fuel') config currentPath prefix currentDepth m
            = (Returned tt, m)) /\
        (forall level prefix entry,
            fst r = Returned tt ->
            Listed config level prefix entry ->
            depth_gt level (maxDepth config) = false ->
            In (Trace.entry_line level entry prefix) (console_out (snd r))) /\
        (opt_depth argv = None ->
         forall level, depth_gt level (maxDepth config) = false) /\
        (forall h,
            (forall level prefix entry,
                Listed config level prefix entry -> isDirectory entry = true ->
                level <= h) ->
            (Z.to_nat h < fuel)%nat ->
            fst r = Returned tt \/ fst r = Exited 1) /\
        (forall contents entry,
            TreeGenerator.getDirectoryContents config (startPath config) = Ok contents ->
            hasErrors contents = false ->
            In entry (entries contents) ->
            Listed config 1 "" entry)).
Proof.
  intros H fuel argv r.
  set (config := Run.config_of argv).
  set (w := Trace.walk_lines fuel config (startPath config) "" 1).
  assert (Hcases := main_cases fuel argv). cbv zeta in Hcases.
  fold r config w in Hcases.
  split; [|split; [|split]].
  - intros n line level entry Hn Hin Hat.
    destruct (@main_entry_line H fuel argv line level entry Hin Hat) as (Hle & Hgt & _).
    unfold Run.config_of in Hgt. cbn [maxDepth] in Hgt. rewrite Hn in Hgt.
    apply Z.ltb_ge in Hgt. lia.
  - intros line level entry Hin Hat.
    destruct (@main_entry_line H fuel argv line level entry Hin Hat)
      as (_ & _ & _ & pre & -> & Hlisted).
    destruct (ListedFrom_prefix Hlisted) as (segments & Hlen & Hall & ->).
    exists segments. split; [exact Hlen|]. split; [exact Hall|]. reflexivity.
  - intros n Hn Hfuel.
    destruct Hcases
      as [(err & Hf & Hfst & _)
         |[(_ & _ & Hfst & _)|(_ & _ & _ & _ & [(_ & Hfst & _)|(Hw & _ & _)])]].
    + right; right. exists err. split; [|exact Hfst].
      rewrite new_run, Hf. reflexivity.
    + right; left. exact Hfst.
    + left. exact Hfst.
    + exfalso. unfold w in Hw.
      rewrite (@walk_lines_bounded H config n fuel) in Hw; [discriminate| |].
      * unfold config, Run.config_of. cbn [maxDepth]. rewrite Hn. reflexivity.
      * replace (n + 1 - 1) with n by lia. exact Hfuel.
  - intros config' Hnew. apply new_returned in Hnew. destruct Hnew as [Hf ->].
    fold config.
    split; [reflexivity|].
    split; [|split; [|split; [|split]]].
    + intros fuel' currentPath prefix currentDepth m Hgt.
      cbn [TreeGenerator.walk]. rewrite Hgt. reflexivity.
    + intros level prefix entry Hr Hlisted Hgt.
      destruct Hcases
        as [(err & _ & Hfst & _)
           |[(_ & _ & Hfst & _)|(_ & _ & _ & _ & [(Hw & _ & Hout)|(_ & Hfst & _)])]];
        try (rewrite Hfst in Hr; discriminate).
      rewrite Hout. right. apply in_or_app. left.
      apply walk_lines_complete; [exact Hw|].
      apply ListedFrom_Emits; assumption.
    + intros Hnone level. unfold config, Run.config_of. cbn [maxDepth].
      rewrite Hnone. reflexivity.
    + intros h Hheight Hfuel.
      destruct Hcases
        as [(err & Hf' & _)
           |[(_ & _ & Hfst & _)|(_ & _ & _ & _ & [(_ & Hfst & _)|(Hw & _ & _)])]];
        [congruence|now right|now left|].
      exfalso. unfold w in Hw.
      rewrite (@walk_lines_height H config fuel (Z.to_nat h)) in Hw;
        [discriminate| |exact Hfuel].
      intros level prefix' entry Hlisted Hdir.
      pose proof (ListedFrom_level Hlisted) as Hle.
      specialize (Hheight level prefix' entry Hlisted Hdir). lia.
    + intros contents entry Hg He Hin. eapply Listed_here; eassumption.
Qed.

(** The test tree with [--depth 1]: the line of [subdir] is at level 1. *)
Lemma C2_witness :
  let H := Mem.host Mem.test_dir Mem.collate_units in
  let argv := mkTreeOptions "/test-dir" (Some 1) None false false in
  let entry := mkFileEntry "subdir" "/test-dir/subdir" true false
                 (Some (mkStats KDirectory)) in
  let line := mkLine (AtEntry 1 entry) "├── subdir" in
  In line (console_out (snd (main 5 argv initial))) /\ 1 <= 1 <= 1.
Proof.
  intros H argv entry line.
  assert (Hin : In line (console_out (snd (main 5 argv initial))))
    by (right; left; reflexivity).
  split; [exact Hin|].
  exact (proj1 (C2_depth_law H 5 argv) 1 line 1 entry eq_refl Hin eq_refl).
Defined.

(** ** C3: a directory whose listing fails *)

(** C3.  When the listing of a directory fails, because [readdirSync]
    throws or because the ignore engine throws on the path of an entry,
    [getDirectoryContents] returns the error as a value; the walk of the
    directory prints one line, the current prefix, the terminal connector
    and the message, counts nothing, does not recurse and returns; the loop
    of the parent goes on with the remaining siblings; and a run whose
    constructor returned and whose start path is a directory exits with
    code 0 when it ends, its error stream holding only what the constructor
    printed. *)
Theorem C3_listing_failure :
  forall (H : Host) (config : TreeGeneratorConfig) (fuel : nat)
         (currentPath prefix : string) (currentDepth : Z) (m : Machine) (err : Exn),
    listing_fails config currentPath err ->
    depth_gt currentDepth (maxDepth config) = false ->
    let line :=
      mkLine (AtListingError currentDepth)
        (prefix +++ TREE_SYMBOLS.LAST
                +++ chalk_red ("[Error: " +++ Exn_message err +++ "]")) in
    TreeGenerator.getDirectoryContents config currentPath
    = Ok (mkDirectoryContents [] true (Some (Exn_message err))) /\
    TreeGenerator.walk (S fuel) config currentPath prefix currentDepth m
    = (Returned tt,
       mkMachine (tg_stats m) (console_out m ++ [line]) (console_err m)) /\
    (forall entry rest prefix0 depth0,
        isDirectory entry = true ->
        fullPath entry = currentPath ->
        TreeGenerator.getNextPrefix prefix0 (isLast entry) = prefix ->
        depth0 + 1 = currentDepth ->
        forEach (entry :: rest)
          (TreeGenerator.visit (TreeGenerator.walk (S fuel) config) prefix0 depth0) m
        = forEach rest
            (TreeGenerator.visit (TreeGenerator.walk (S fuel) config) prefix0 depth0)
            (emit [Trace.entry_line depth0 entry prefix0; line] m)) /\
    (forall fuel' argv config',
        fst (TreeGenerator.new argv initial) = Returned config' ->
        FileUtils.isDirectory (startPath config') = Ok true ->
        let r := main fuel' argv initial in
        (exit_code (fst r) = Some 0 \/ exit_code (fst r) = None) /\
        console_err (snd r) = console_err (snd (TreeGenerator.new argv initial))).
Proof.
  intros H config fuel currentPath prefix currentDepth m err Hfails Hgt line.
  assert (Hg : TreeGenerator.getDirectoryContents config currentPath
               = Ok (mkDirectoryContents [] true (Some (Exn_message err)))).
  { unfold listing_fails in Hfails. unfold TreeGenerator.getDirectoryContents.
    destruct (readdirSync currentPath) as [names|e]; cbn [Res.bind] in *.
    - destruct (TreeGenerator.createFileEntries currentPath names) as [fileEntries|e];
        cbn [Res.bind] in *.
      + rewrite Hfails. reflexivity.
      + injection Hfails as ->. reflexivity.
    - injection Hfails as ->. reflexivity. }
  assert (Hwalk : forall m0,
             TreeGenerator.walk (S fuel) config currentPath prefix currentDepth m0
             = (Returned tt,
                mkMachine (tg_stats m0) (console_out m0 ++ [line]) (console_err m0))).
  { intros m0. cbn [TreeGenerator.walk]. rewrite Hgt, Hg. reflexivity. }
  split; [exact Hg|].
  split; [apply Hwalk|]. split.
  - intros entry rest prefix0 depth0 Hdir Hpath Hprefix Hdepth.
    cbn [forEach]. unfold bind at 1. unfold TreeGenerator.visit at 1.
    unfold bind at 1. rewrite displayEntry_run. rewrite Hdir.
    cbv zeta. rewrite Hpath, Hprefix, Hdepth, Hwalk.
    f_equal. unfold emit, dir_lines, file_lines. cbn. rewrite Hdir. cbn.
    rewrite <- !app_assoc, !Nat.add_0_r. reflexivity.
  - intros fuel' argv config' Hnew Hstart r.
    apply new_returned in Hnew. destruct Hnew as [Hf ->].
    rewrite isDirectory_value in Hstart. injection Hstart as Hstart.
    destruct (main_cases fuel' argv)
      as [(e & Hf' & _)|[(_ & Hno & _)|(_ & _ & _ & Herr & Hshape)]].
    + congruence.
    + assert (Hno' : Values.is_directory (path_resolve (opt_path argv)) = false)
        by exact Hno.
      assert (Hstart' : Values.is_directory (path_resolve (opt_path argv)) = true)
        by exact Hstart.
      congruence.
    + fold r in Herr, Hshape. split; [|rewrite new_run; exact Herr].
      destruct Hshape as [(_ & -> & _)|(_ & -> & _)]; [now left|now right].
Qed.

(** The locked directory of the tree, walked at depth 2: [readdirSync]
    throws. *)
Lemma C3_witness :
  let H := Mem.host locked_fs Mem.collate_units in
  TreeGenerator.walk 1 locked_config "/r/locked" "│   " 2 initial
  = (Returned tt,
     mkMachine (mkTreeStats 0 0)
       [mkLine (AtListingError 2)
          "│   └── [Error: EACCES: permission denied, scandir '/r/locked']"]
       []).
Proof.
  intros H.
  exact (proj1 (proj2 (@C3_listing_failure H locked_config 0 "/r/locked" "│   " 2 initial
                         (Error "EACCES: permission denied, scandir '/r/locked'")
                         eq_refl eq_refl))).
Defined.

(** ** C5: the exclusion law *)

(** C5.  The blocklist is [.DS_Store], [Thumbs.db] and [desktop.ini].  An
    entry whose name is in it, or whose path relative to the start path of
    the run is ignored by the rules of the configuration the constructor
    returned (or is a path the engine throws on), has no line in the output
    of the run, at any level; the counters count the printed lines only;
    and no group the pipeline returns holds such an entry. *)
Theorem C5_exclusion_law :
  forall (H : Host) (fuel : nat) (argv : TreeOptions) (config : TreeGeneratorConfig)
         (entry : FileEntry),
    let r := main fuel argv initial in
    fst (TreeGenerator.new argv initial) = Returned config ->
    Array_includes FilterUtils.systemFiles (name entry) = true \/
    ignores (ignoreRules config) (path_relative (startPath config) (fullPath entry))
    <> Ok false ->
    FilterUtils.systemFiles = [".DS_Store"; "Thumbs.db"; "desktop.ini"] /\
    (forall line level, In line (console_out (snd r)) -> ~ entry_at line level entry) /\
    dirCount (tg_stats (snd r)) = dir_lines (console_out (snd r)) /\
    fileCount (tg_stats (snd r)) = file_lines (console_out (snd r)) /\
    (forall entries group,
        TreeGenerator.filterAndSortEntries config entries = Ok group ->
        ~ In entry group).
Proof.
  intros H fuel argv config entry r Hnew Hexcluded.
  apply new_returned in Hnew. destruct Hnew as [_ ->].
  set (config := Run.config_of argv) in *.
  assert (Hnot : ~ passes config entry).
  { intros [Hsys Hig]. destruct Hexcluded as [Hx|Hx]; congruence. }
  split; [reflexivity|]. split; [|split; [|split]].
  - intros line level Hin Hat. apply Hnot.
    apply (@main_entry_line H fuel argv line level entry Hin Hat).
  - apply (main_counts fuel argv).
  - apply (main_counts fuel argv).
  - intros entries group Hgroup Hin. apply Hnot.
    apply filterAndSortEntries_returned in Hgroup. destruct Hgroup as [_ ->].
    apply (sorted_entries_passes config entries entry Hin).
Qed.

(** [file1.txt] under [--exclude "*.txt"]. *)
Lemma C5_witness :
  let H := Mem.host Mem.test_dir Mem.collate_units in
  let r := main 5 exclude_txt initial in
  (forall line level, In line (console_out (snd r)) -> ~ entry_at line level file1_entry) /\
  tg_stats (snd r) = mkTreeStats 1 0.
Proof.
  intros H r. split; [|reflexivity].
  apply (@C5_exclusion_law H 5 exclude_txt (mkConfig "/test-dir" Infinity ["*.txt"])
           file1_entry eq_refl).
  right. discriminate.
Defined.

(** ** C6: the last entry of a sibling group *)

Lemma mapi_from_app {A B : Type} (f : A -> nat -> B) (l1 l2 : list A) (k : nat) :
  Array_mapi_from f k (l1 ++ l2)
  = Array_mapi_from f k l1 ++ Array_mapi_from f (k + List.length l1) l2.
Proof.
  revert k. induction l1 as [|x l1 IH]; intros k; simpl.
  - rewrite Nat.add_0_r. reflexivity.
  - rewrite IH. rewrite Nat.add_succ_r. reflexivity.
Qed.

Lemma mapi_relabel_false (g : nat -> bool) (l : list FileEntry) (k : nat) :
  (forall i, (k <= i < k + List.length l)%nat -> g i = false) ->
  Array_mapi_from (fun e i => with_isLast e (g i)) k l = map forget_last l.
Proof.
  revert k. induction l as [|x l IH]; intros k Hg; simpl; [reflexivity|].
  rewrite Hg by (simpl; lia). rewrite IH; [reflexivity|].
  intros i Hi. apply Hg. simpl. lia.
Qed.

(** The flags set by the last step of the pipeline: false on all entries
    but the final one. *)
Lemma relabel_last (l : list FileEntry) :
  l <> [] ->
  exists init x,
    l = init ++ [x] /\
    Array_mapi_from
      (fun e i => with_isLast e (Z.of_nat i =? Z.of_nat (List.length l) - 1)) 0 l
    = map forget_last init ++ [with_isLast x true].
Proof.
  intros Hne. destruct (exists_last Hne) as (init & x & ->).
  exists init, x. split; [reflexivity|].
  rewrite mapi_from_app. rewrite length_app. simpl.
  rewrite mapi_relabel_false.
  - f_equal. f_equal. f_equal. apply Z.eqb_eq. lia.
  - intros i Hi. apply Z.eqb_neq. lia.
Qed.

Section Direct.
Context {H : Host}.
Variable config : TreeGeneratorConfig.

(** The lines of a walk that returns, at its own level: the lines of the
    entries of the listing, one each, in the order of the listing. *)
Lemma walk_lines_direct (fuel : nat) (currentPath prefix : string) (currentDepth : Z) :
  depth_gt currentDepth (maxDepth config) = false ->
  hasErrors (Values.contents_of config currentPath) = false ->
  fst (Trace.walk_lines fuel config currentPath prefix currentDepth) = Returned tt ->
  filter (at_level currentDepth)
    (snd (Trace.walk_lines fuel config currentPath prefix currentDepth))
  = map (fun entry => Trace.entry_line currentDepth entry prefix)
      (entries (Values.contents_of config currentPath)).
Proof.
  intros Hgt He Hr. destruct fuel as [|fuel]; [discriminate|].
  rewrite walk_lines_step in Hr |- *. rewrite Hgt in Hr |- *. cbv zeta in Hr |- *.
  rewrite He in Hr |- *.
  pose proof (lines_forEach_returned_inv _ _ Hr) as Hall.
  rewrite lines_forEach_returned by exact Hall. cbn [snd].
  clear Hr Hall.
  induction (entries (Values.contents_of config currentPath)) as [|entry es IH];
    [reflexivity|].
  cbn [map List.concat]. rewrite filter_app, IH. clear IH.
  assert (Hown : at_level currentDepth (Trace.entry_line currentDepth entry prefix) = true)
    by (unfold at_level; simpl; apply Z.eqb_refl).
  destruct (isDirectory entry); cbn [snd filter]; rewrite Hown; [|reflexivity].
  cbn [app]. f_equal.
  match goal with |- filter _ ?ls ++ _ = _ => assert (Hsub : filter (at_level currentDepth) ls = []) end.
  { pose proof (walk_lines_sound config fuel (fullPath entry)
                  (TreeGenerator.getNextPrefix prefix (isLast entry)) (currentDepth + 1))
      as Hsound.
    induction Hsound as [|line ls Hline _ IH]; [reflexivity|].
    cbn [filter]. rewrite IH.
    destruct (Emits_level Hline) as (level & Hsite & Hle & _).
    unfold at_level.
    destruct Hsite as [->|(e & ->)]; [reflexivity|].
    destruct (level =? currentDepth) eqn:Heq; [|reflexivity].
    apply Z.eqb_eq in Heq. lia. }
  rewrite Hsub. reflexivity.
Qed.

End Direct.

(** C6.  A non-empty group returned by the filter and sort pipeline ends in
    an entry marked is-last, and no other entry of it is marked; the marks
    are set on the filtered and sorted list.  [displayEntry] renders the
    marked entry with the terminal connector and the others with the branch
    connector, two different glyphs; and a walk that returns prints, at its
    own level, one line per entry of the group, in the order of the group. *)
Theorem C6_last_entry :
  forall (H : Host) (config : TreeGeneratorConfig) (listing group : list FileEntry),
    TreeGenerator.filterAndSortEntries config listing = Ok group ->
    group <> [] ->
    TREE_SYMBOLS.LAST <> TREE_SYMBOLS.BRANCH /\
    map forget_last group
    = map forget_last (Array_sort SortUtils.createDefaultSort (kept config listing)) /\
    exists init final,
      group = init ++ [final] /\
      isLast final = true /\
      Forall (fun e => isLast e = false) init /\
      (forall level prefix m,
          console_out (snd (TreeGenerator.displayEntry level final prefix m))
          = console_out m
            ++ [mkLine (AtEntry level final)
                  (prefix +++ TREE_SYMBOLS.LAST +++ styled final)]) /\
      (forall e level prefix m,
          In e init ->
          console_out (snd (TreeGenerator.displayEntry level e prefix m))
          = console_out m
            ++ [mkLine (AtEntry level e) (prefix +++ TREE_SYMBOLS.BRANCH +++ styled e)]) /\
      (forall fuel currentPath prefix currentDepth m m',
          TreeGenerator.getDirectoryContents config currentPath
          = Ok (mkDirectoryContents group false None) ->
          depth_gt currentDepth (maxDepth config) = false ->
          TreeGenerator.walk fuel config currentPath prefix currentDepth m
          = (Returned tt, m') ->
          exists printed,
            console_out m' = console_out m ++ printed /\
            filter (at_level currentDepth) printed
            = map (fun e => mkLine (AtEntry currentDepth e)
                              (prefix +++ TreeGenerator.connector_of e +++ styled e))
                (init ++ [final])).
Proof.
  intros H config listing group0 Hreturned Hne.
  apply filterAndSortEntries_returned in Hreturned. destruct Hreturned as [_ Hreturned].
  set (group := Values.sorted_entries config listing) in *. subst group0.
  split; [discriminate|]. split; [apply sorted_entries_forget|].
  assert (Hsorted : Array_sort SortUtils.createDefaultSort (kept config listing) <> []).
  { intros Hnil. apply Hne. unfold group. rewrite sorted_entries_unfold. cbv zeta.
    rewrite Hnil. reflexivity. }
  destruct (relabel_last Hsorted) as (init0 & x & Heq & Hflags).
  exists (map forget_last init0), (with_isLast x true).
  assert (Hgroup : group = map forget_last init0 ++ [with_isLast x true]).
  { unfold group. rewrite sorted_entries_unfold. cbv zeta. exact Hflags. }
  split; [exact Hgroup|]. split; [reflexivity|]. split; [|split; [|split]].
  - apply Forall_forall. intros e He. apply in_map_iff in He.
    destruct He as (e0 & <- & _). reflexivity.
  - intros level prefix m. rewrite displayEntry_run. reflexivity.
  - intros e level prefix m He. rewrite displayEntry_run.
    apply in_map_iff in He. destruct He as (e0 & <- & _). reflexivity.
  - intros fuel currentPath prefix currentDepth m m' Hg Hgt Hwalk.
    rewrite getDirectoryContents_value in Hg. injection Hg as Hg.
    rewrite walk_run in Hwalk. injection Hwalk as Hr <-.
    eexists. split; [reflexivity|].
    rewrite (@walk_lines_direct H config fuel currentPath prefix currentDepth Hgt);
      [|rewrite Hg; reflexivity|exact Hr].
    rewrite Hg. cbn [entries]. rewrite Hgroup. reflexivity.
Qed.

(** The listing of the test tree: [subdir], then [file1.txt] marked last. *)
Lemma C6_witness :
  let H := Mem.host Mem.test_dir Mem.collate_units in
  let group := [ mkFileEntry "subdir" "/test-dir/subdir" true false (Some (mkStats KDirectory));
                 mkFileEntry "file1.txt" "/test-dir/file1.txt" false true
                   (Some (mkStats KFile)) ] in
  TreeGenerator.filterAndSortEntries test_config
    (Values.file_entries "/test-dir" ["file1.txt"; "subdir"]) = Ok group /\
  map isLast group = [false; true] /\
  exists init final,
    group = init ++ [final] /\ isLast final = true /\
    Forall (fun e => isLast e = false) init.
Proof.
  intros H group.
  assert (Hreturned : TreeGenerator.filterAndSortEntries test_config
                        (Values.file_entries "/test-dir" ["file1.txt"; "subdir"]) = Ok group)
    by (vm_compute; reflexivity).
  split; [exact Hreturned|]. split; [reflexivity|].
  assert (Hne : group <> []) by discriminate.
  destruct (proj2 (proj2 (@C6_last_entry H test_config
                            (Values.file_entries "/test-dir" ["file1.txt"; "subdir"])
                            group Hreturned Hne)))
    as (init & final & Hg & Hl & Hi & _).
  exists init, final. auto.
Defined.

(** ** C7: the set-up of the ignore rules *)

(** C7 (amended).  With the allignore flag set the object is loaded by
    [loadAllIgnoreRules], whatever the gitignore flag; otherwise, with the
    gitignore flag set, by [loadGitignoreRules]; otherwise nothing is
    loaded; and a loader returns.  In each case the exclude pattern, when
    it is a non-empty string, is then given to [add]: when the engine takes
    it [setupIgnoreRules] returns, and when [add] throws
    [setupIgnoreRules] throws a [GitignoreParseError] for the start path.
    An absent or empty pattern is not given to [add]. *)
Theorem C7_ignore_setup :
  forall (H : Host) (startPath : string) (options : TreeOptions) (ig : Ignore) (m : Machine),
    let this := Build.mkState ig m in
    let setup_after (loaded : Outcome unit * Build.State) :=
      fst loaded = Returned tt /\
      let base := Build.rules (snd loaded) in
      TreeGenerator.setupIgnoreRules startPath options this
      = (match Run.exclude_failure (opt_exclude options) base with
         | Some err => Raised (GitignoreParseError startPath err)
         | None => Returned tt
         end,
         Build.mkState (Run.with_exclude (opt_exclude options) base)
           (Build.machine (snd loaded))) in
    (opt_allignore options = true ->
     setup_after (TreeGenerator.loadAllIgnoreRules startPath this)) /\
    (opt_allignore options = false -> opt_gitignore options = true ->
     setup_after (TreeGenerator.loadGitignoreRules startPath this)) /\
    (opt_allignore options = false -> opt_gitignore options = false ->
     setup_after (Returned tt, this)) /\
    (forall base pattern,
        pattern <> "" ->
        Run.with_exclude (Some pattern) base = base ++ [pattern] /\
        Run.exclude_failure (Some pattern) base = add_throws base pattern) /\
    (forall base,
        Run.with_exclude (Some "") base = base /\ Run.with_exclude None base = base /\
        Run.exclude_failure (Some "") base = None /\ Run.exclude_failure None base = None).
Proof.
  intros H startPath options ig m this setup_after. unfold setup_after, this.
  pose proof (setupIgnoreRules_run startPath options ig m) as Hrun.
  unfold Run.setup_rules, Run.setup_failure, Run.loaded_rules in Hrun.
  split; [|split; [|split; [|split]]].
  - intros Hall. rewrite Hall in Hrun. rewrite loadAllIgnoreRules_run.
    split; [reflexivity|]. cbn [fst snd Build.rules Build.machine].
    rewrite Hrun. destruct (Run.exclude_failure _ _); reflexivity.
  - intros Hall Hgit. rewrite Hall, Hgit in Hrun. rewrite loadGitignoreRules_run.
    split; [reflexivity|]. cbn [fst snd Build.rules Build.machine].
    rewrite Hrun. destruct (Run.exclude_failure _ _); reflexivity.
  - intros Hall Hgit. rewrite Hall, Hgit in Hrun. cbn [fst snd] in Hrun.
    rewrite warn_nil in Hrun.
    split; [reflexivity|]. cbn [fst snd Build.rules Build.machine].
    rewrite Hrun. destruct (Run.exclude_failure _ _); reflexivity.
  - intros base [|c s] Hne; [congruence|split; reflexivity].
  - intros base. repeat split; reflexivity.
Qed.

(** The test tree with [--exclude "*.txt"] and no flag: the engine takes
    the pattern, one rule. *)
Lemma C7_witness :
  let H := Mem.host Mem.test_dir Mem.collate_units in
  TreeGenerator.setupIgnoreRules "/test-dir" exclude_txt (Build.mkState ignore_new initial)
  = (Returned tt, Build.mkState ["*.txt"] initial).
Proof.
  intros H.
  exact (proj2 (proj1 (proj2 (proj2 (C7_ignore_setup H "/test-dir" exclude_txt ignore_new
                                       initial)))
                  eq_refl eq_refl)).
Defined.

(** C7 as stated fails: an exclude pattern that is supplied as the empty
    string is not given to [add]; the object stays empty. *)
Lemma C7_counterexample :
  let H := Mem.host Mem.test_dir Mem.collate_units in
  let r := TreeGenerator.setupIgnoreRules "/test-dir" exclude_empty
             (Build.mkState ignore_new initial) in
  opt_exclude exclude_empty = Some "" /\
  fst r = Returned tt /\
  Build.rules (snd r) = [] /\
  forall base : Ignore, [] <> fst (ignore_add base "").
Proof.
  intros H r. split; [reflexivity|]. split; [reflexivity|]. split; [reflexivity|].
  intros base Heq. unfold ignore_add in Heq. cbn [fst] in Heq.
  destruct base; discriminate.
Qed.

(** The test tree with an exclude pattern the engine rejects: [add]
    throws, and the set-up throws its own error for the start path. *)
Example setupIgnoreRules_rejected :
  let H := Mem.host Mem.test_dir Mem.collate_units in
  TreeGenerator.setupIgnoreRules "/test-dir" exclude_rejected
    (Build.mkState ignore_new initial)
  = (Raised (TreeError "Failed to parse .gitignore file: /test-dir" "GITIGNORE_PARSE_ERROR"),
     Build.mkState ["[\d-a]"] initial).
Proof. reflexivity. Qed.

(** ** C8: an invalid start path *)

(** C8 (amended).  When the start path cannot be inspected, or is not a
    directory, the run ends with exit code 1 whatever the fuel, and nothing
    is printed on the standard output.  When the constructor returns,
    [generate] prints one line on the error stream, the invalid-path error
    with its code, and leaves through [process.exit(1)]; the line follows
    what the constructor printed there, the warnings of the ignore files,
    and there are none when no ignore flag is set, or when the start path
    cannot be listed and holds no [.gitignore].  When the constructor
    throws, the run ends there with its [GitignoreParseError]: [generate]
    does not run and reports nothing. *)
Theorem C8_invalid_start_path :
  forall (H : Host) (fuel : nat) (argv : TreeOptions),
    let start := path_resolve (opt_path argv) in
    let report := chalk_red ("Error [INVALID_PATH_ERROR]: Invalid path: " +++ start) in
    (exists e, statSync start = Throw e) \/
    (exists s, statSync start = Ok s /\ st_kind s <> KDirectory) ->
    let r := main fuel argv initial in
    let built := TreeGenerator.new argv initial in
    exit_code (fst r) = Some 1 /\
    console_out (snd r) = [] /\
    (forall config,
        fst built = Returned config ->
        fst r = Exited 1 /\
        console_err (snd r) = console_err (snd built) ++ [report]) /\
    (forall err,
        fst built = Raised err ->
        fst r = Raised err /\
        console_err (snd r) = console_err (snd built) /\
        exists cause, err = GitignoreParseError start cause) /\
    ((exists config, fst built = Returned config) \/ (exists err, fst built = Raised err)) /\
    (forall config m,
        startPath config = start ->
        TreeGenerator.generate fuel config m
        = (Exited 1, mkMachine (tg_stats m) (console_out m) (console_err m ++ [report]))) /\
    (opt_allignore argv = false -> opt_gitignore argv = false ->
     console_err (snd built) = []) /\
    ((exists e, readdirSync start = Throw e) ->
     existsSync (path_join start ".gitignore") = false ->
     console_err (snd built) = []).
Proof.
  intros H fuel argv start report Hbad r built.
  assert (Hnot : Values.is_directory start = false).
  { unfold Values.is_directory, Values.stat_of.
    destruct Hbad as [(e & ->)|(s & -> & Hk)]; [reflexivity|].
    unfold Stats_isDirectory. destruct (st_kind s); congruence. }
  assert (Hbuilt : built
                   = (match Run.failure_of argv with
                      | Some err => Raised err
                      | None => Returned (Run.config_of argv)
                      end, Run.warn (Run.warnings_of argv) initial))
    by (unfold built; rewrite new_run; reflexivity).
  assert (Hnew : console_err (snd built) = Run.warnings_of argv)
    by (rewrite Hbuilt; reflexivity).
  rewrite !Hnew.
  destruct (main_cases fuel argv)
    as [(err & Hf & Hfst & Hout & _ & Herr)
       |[(Hf & _ & Hfst & Hout & _ & Herr)|(_ & Hyes & _)]].
  3:{ change (startPath (Run.config_of argv)) with start in Hyes. congruence. }
  - fold r in Hfst, Hout, Herr. rewrite Hf in Hbuilt.
    split; [rewrite Hfst; reflexivity|]. split; [exact Hout|].
    split; [intros config Hc; rewrite Hbuilt in Hc; discriminate|].
    split; [|split; [right; exists err; rewrite Hbuilt; reflexivity|]].
    + intros err' He. rewrite Hbuilt in He. injection He as <-.
      split; [exact Hfst|]. split; [exact Herr|].
      unfold Run.failure_of, Run.setup_failure in Hf. fold start in Hf.
      destruct (Run.exclude_failure _ _) as [cause|]; [|discriminate].
      exists cause. now injection Hf as <-.
    + split; [|split].
      * intros config m Hstart. rewrite generate_run. unfold generate_result.
        rewrite Hstart, Hnot. unfold Run.warn, Run.invalid_path_text. rewrite Hstart.
        reflexivity.
      * intros Hall Hgit. unfold Run.warnings_of, Run.setup_rules, Run.loaded_rules.
        rewrite Hall, Hgit. reflexivity.
      * intros (e & Hread) Hexists.
        unfold Run.warnings_of, Run.setup_rules, Run.loaded_rules.
        fold start. unfold Run.allignore_rules, Run.gitignore_rules.
        rewrite Hread. cbv zeta. rewrite Hexists.
        destruct (opt_allignore argv), (opt_gitignore argv); reflexivity.
  - fold r in Hfst, Hout, Herr. rewrite Hf in Hbuilt.
    split; [rewrite Hfst; reflexivity|]. split; [exact Hout|].
    split; [intros config _; split; [exact Hfst|exact Herr]|].
    split; [intros err He; rewrite Hbuilt in He; discriminate|].
    split; [left; exists (Run.config_of argv); rewrite Hbuilt; reflexivity|].
    split; [|split].
    + intros config m Hstart. rewrite generate_run. unfold generate_result.
      rewrite Hstart, Hnot. unfold Run.warn, Run.invalid_path_text. rewrite Hstart.
      reflexivity.
    + intros Hall Hgit. unfold Run.warnings_of, Run.setup_rules, Run.loaded_rules.
      rewrite Hall, Hgit. reflexivity.
    + intros (e & Hread) Hexists.
      unfold Run.warnings_of, Run.setup_rules, Run.loaded_rules.
      fold start. unfold Run.allignore_rules, Run.gitignore_rules.
      rewrite Hread. cbv zeta. rewrite Hexists.
      destruct (opt_allignore argv), (opt_gitignore argv); reflexivity.
Qed.

(** A start path that does not exist. *)
Lemma C8_witness :
  let H := Mem.host Mem.test_dir Mem.collate_units in
  let r := main 5 (Mem.plain "/nope") initial in
  exit_code (fst r) = Some 1 /\
  console_out (snd r) = [] /\
  fst r = Exited 1 /\
  console_err (snd r) = ["Error [INVALID_PATH_ERROR]: Invalid path: /nope"].
Proof.
  intros H r.
  destruct (@C8_invalid_start_path H 5 (Mem.plain "/nope")
              (or_introl (ex_intro _ (Error "ENOENT: no such file or directory, stat '/nope'")
                                   eq_refl)))
    as (H1 & H2 & H3 & _).
  destruct (H3 (mkConfig "/nope" Infinity []) eq_refl) as [H4 H5].
  repeat split; assumption.
Defined.

(** C8 as stated fails: the start path does not exist, and the engine
    rejects the exclude pattern.  The constructor throws before [generate]
    runs: the run ends with the [GitignoreParseError], and no line names an
    invalid path. *)
Lemma C8_counterexample :
  let H := Mem.host Mem.test_dir Mem.collate_units in
  let r := main 5 exclude_rejected_nowhere initial in
  (exists e, statSync "/nowhere" = Throw e) /\
  fst r
  = Raised (TreeError "Failed to parse .gitignore file: /nowhere" "GITIGNORE_PARSE_ERROR") /\
  console_out (snd r) = [] /\
  console_err (snd r) = [].
Proof.
  intros H r. split; [eexists; reflexivity|].
  split; [reflexivity|]. split; reflexivity.
Qed.

(** ** C10: entries that could not be classified *)

Section Classified.
Context {H : Host}.
Variable config : TreeGeneratorConfig.

Lemma file_entries_In (currentPath : string) (count : nat) (names : list string)
    (k : nat) (e : FileEntry) :
  In e (Array_mapi_from (Values.file_entry currentPath count) k names) ->
  In (name e) names /\
  fullPath e = path_join currentPath (name e) /\
  isDirectory e = Values.is_directory (fullPath e) /\
  stats e = Values.stat_of (fullPath e).
Proof.
  revert k. induction names as [|n names IH]; intros k; simpl; [tauto|].
  intros [<-|Hin].
  - simpl. auto.
  - destruct (IH _ Hin) as (Hn & Hrest). split; [now right|exact Hrest].
Qed.

Lemma file_entries_In_rev (currentPath : string) (count : nat) (names : list string)
    (k : nat) (n : string) :
  In n names ->
  exists index, In (Values.file_entry currentPath count n index)
                   (Array_mapi_from (Values.file_entry currentPath count) k names).
Proof.
  revert k. induction names as [|n0 names IH]; intros k; simpl; [tauto|].
  intros [->|Hin].
  - exists k. now left.
  - destruct (IH (S k) Hin) as (index & Hi). exists index. now right.
Qed.

(** An entry of the contents of a directory carries the classification of
    its own path, and its name is in the listing. *)
Lemma contents_entry (currentPath : string) (e : FileEntry) :
  In e (entries (Values.contents_of config currentPath)) ->
  hasErrors (Values.contents_of config currentPath) = false /\
  fullPath e = path_join currentPath (name e) /\
  isDirectory e = Values.is_directory (fullPath e) /\
  stats e = Values.stat_of (fullPath e) /\
  exists names, readdirSync currentPath = Ok names /\ In (name e) names.
Proof.
  intros Hin.
  destruct (hasErrors (Values.contents_of config currentPath)) eqn:He.
  { rewrite contents_of_error in Hin by exact He. contradiction. }
  destruct (contents_of_listed config currentPath He) as (names & Hread & _ & Hc).
  rewrite Hc in Hin. cbn [entries] in Hin. split; [reflexivity|].
  apply sorted_entries_In in Hin. destruct Hin as (e' & He' & Heq).
  apply kept_In in He'. destruct He' as (He' & _).
  apply file_entries_In in He'. destruct He' as (Hn & Hp & Hd & Hs).
  rewrite Heq. simpl. repeat split; try assumption.
  exists names. split; [exact Hread|exact Hn].
Qed.


End Classified.



(** * Further properties of the code *)

(** ** The command line *)

Lemma find_first {A : Type} (f : A -> bool) (before after : list A) (x : A) :
  Forall (fun a => f a = false) before -> f x = true ->
  find f (before ++ x :: after) = Some x.
Proof.
  induction 1 as [|a before Ha _ IH]; intros Hx; simpl.
  - rewrite Hx. reflexivity.
  - rewrite Ha. apply IH, Hx.
Qed.

Lemma find_none {A : Type} (f : A -> bool) (l : list A) :
  Forall (fun a => f a = false) l -> find f l = None.
Proof.
  induction 1 as [|a l Ha _ IH]; simpl; [reflexivity|]. rewrite Ha. exact IH.
Qed.

(** X1.  The path of the options is the first raw argument that does not
    start with a dash, whatever was parsed and whether or not that argument
    is the value of an option; it is [.] when every raw argument starts
    with a dash.  The flags are the truthiness of what was parsed. *)
Theorem X1_convert_path :
  forall (rawArgs : list string) (args : ParsedArgs),
    (Forall (fun a => startsWith a "-" = true) rawArgs ->
     opt_path (convertToTreeOptions rawArgs args) = ".") /\
    (forall before x after,
        rawArgs = before ++ x :: after ->
        Forall (fun a => startsWith a "-" = true) before ->
        startsWith x "-" = false ->
        opt_path (convertToTreeOptions rawArgs args) = x) /\
    opt_gitignore (convertToTreeOptions rawArgs args) = Boolean (arg_gitignore args) /\
    opt_allignore (convertToTreeOptions rawArgs args) = Boolean (arg_allignore args).
Proof.
  intros rawArgs args. split; [|split; [|split; reflexivity]].
  - intros Hall. unfold convertToTreeOptions. cbn [opt_path].
    rewrite find_none; [reflexivity|].
    eapply Forall_impl; [|exact Hall]. intros a Ha. cbv beta. rewrite Ha. reflexivity.
  - intros before x after -> Hbefore Hx. unfold convertToTreeOptions. cbn [opt_path].
    rewrite (find_first _ (before := before)); [reflexivity| |].
    + eapply Forall_impl; [|exact Hbefore]. intros a Ha. cbv beta. rewrite Ha. reflexivity.
    + rewrite Hx. reflexivity.
Qed.

(** [clean-tree -d 2 src]: the value of [-d] is taken as the path. *)
Lemma X1_witness :
  opt_path (convertToTreeOptions ["-d"; "2"; "src"]
              (mkParsedArgs (JsNumber 2) JsUndefined (JsBoolean false) (JsBoolean false)))
  = "2".
Proof.
  apply (proj1 (proj2 (X1_convert_path ["-d"; "2"; "src"]
                         (mkParsedArgs (JsNumber 2) JsUndefined (JsBoolean false)
                            (JsBoolean false))))
           ["-d"] "2" ["src"] eq_refl).
  - repeat constructor.
  - reflexivity.
Defined.

(** ** Listings *)

Section Listings.
Context {H : Host}.

Lemma mapi_from_map {A B C : Type} (f : A -> nat -> B) (g : B -> C) (h : A -> C)
    (l : list A) (k : nat) :
  (forall x i, g (f x i) = h x) ->
  map g (Array_mapi_from f k l) = map h l.
Proof.
  intros Hgf. revert k. induction l as [|x l IH]; intros k; simpl; [reflexivity|].
  rewrite Hgf, IH. reflexivity.
Qed.

Lemma mapi_from_nth {A B : Type} (f : A -> nat -> B) (l : list A) (k i : nat) (y : B) :
  nth_error (Array_mapi_from f k l) i = Some y ->
  exists x, nth_error l i = Some x /\ y = f x (k + i)%nat.
Proof.
  revert k i. induction l as [|a l IH]; intros k [|i]; simpl; try discriminate.
  - intros [= <-]. exists a. rewrite Nat.add_0_r. auto.
  - intros Hn. destruct (IH _ _ Hn) as (x & Hx & ->).
    exists x. split; [exact Hx|]. f_equal. lia.
Qed.

Lemma mapi_from_length {A B : Type} (f : A -> nat -> B) (l : list A) (k : nat) :
  List.length (Array_mapi_from f k l) = List.length l.
Proof.
  revert k. induction l as [|a l IH]; intros k; simpl; [reflexivity|]. rewrite IH. reflexivity.
Qed.

End Listings.

(** X2.  [createFileEntries] returns on every listing, whatever the host
    answers about the names: one entry per name, in the order of the
    listing, each with its name, the path joined to the directory, the
    classification and the metadata of that path; the entry at the last
    index, and no other, is marked is-last; an empty listing gives no
    entry. *)
Theorem X2_createFileEntries :
  forall (H : Host) (currentPath : string) (names : list string),
    exists fileEntries,
      TreeGenerator.createFileEntries currentPath names = Ok fileEntries /\
      map name fileEntries = names /\
      map fullPath fileEntries = map (path_join currentPath) names /\
      (forall i e,
          nth_error fileEntries i = Some e ->
          isLast e = Nat.eqb (S i) (List.length names) /\
          FileUtils.isDirectory (fullPath e) = Ok (isDirectory e) /\
          FileUtils.getFileStat (fullPath e) = Ok (stats e)).
Proof.
  intros H currentPath names.
  exists (Values.file_entries currentPath names).
  split; [apply createFileEntries_value|]. unfold Values.file_entries, Array_mapi.
  split; [|split].
  - rewrite (mapi_from_map _ name (fun n => n)) by reflexivity. apply map_id.
  - apply mapi_from_map. reflexivity.
  - intros i e Hn. apply mapi_from_nth in Hn. destruct Hn as (n & Hn & ->).
    cbn [Nat.add]. unfold Values.file_entry. cbn [isLast fullPath isDirectory stats].
    rewrite isDirectory_value, getFileStat_value.
    split; [|split; reflexivity].
    destruct (Nat.eqb_spec (S i) (List.length names)) as [Heq|Hne].
    + apply Z.eqb_eq. lia.
    + apply Z.eqb_neq. lia.
Qed.

(** The listing of the test tree. *)
Lemma X2_witness :
  let H := Mem.host Mem.test_dir Mem.collate_units in
  exists fileEntries,
    TreeGenerator.createFileEntries "/test-dir" ["file1.txt"; "subdir"] = Ok fileEntries /\
    map name fileEntries = ["file1.txt"; "subdir"].
Proof.
  intros H.
  destruct (X2_createFileEntries H "/test-dir" ["file1.txt"; "subdir"])
    as (fileEntries & H1 & H2 & _).
  exists fileEntries. split; assumption.
Defined.

Lemma NoDup_map_filter {A B : Type} (g : A -> B) (f : A -> bool) (l : list A) :
  NoDup (map g l) -> NoDup (map g (filter f l)).
Proof.
  induction l as [|x l IH]; simpl; intros Hnd; [constructor|].
  inversion Hnd as [|? ? Hx Hl]; subst.
  destruct (f x); simpl; [|apply IH, Hl].
  constructor; [|apply IH, Hl].
  intros Hin. apply Hx. apply in_map_iff in Hin. destruct Hin as (y & Hy & Hin).
  apply in_map_iff. exists y. split; [exact Hy|]. apply filter_In in Hin. tauto.
Qed.

Lemma map_name_forget (l : list FileEntry) : map name (map forget_last l) = map name l.
Proof. rewrite map_map. reflexivity. Qed.

(** The names of the result of the pipeline are, up to their order, the
    names of the entries that pass the filters. *)
Lemma sorted_entries_names {H : Host} (config : TreeGeneratorConfig)
    (l : list FileEntry) :
  Permutation (map name (Values.sorted_entries config l))
              (map name (kept config l)).
Proof.
  rewrite <- (map_name_forget (Values.sorted_entries config l)).
  rewrite <- (map_name_forget (kept config l)).
  apply Permutation_map, sorted_entries_perm.
Qed.

Section Failures.
Context {H : Host}.
Variable config : TreeGeneratorConfig.

Lemma first_throw_some {A B : Type} (f : A -> Result B) (l : list A) (err : Exn) :
  first_throw f l = Some err -> exists x, In x l /\ f x = Throw err.
Proof.
  induction l as [|x l IH]; simpl; [discriminate|].
  destruct (f x) as [b|e] eqn:Hx.
  - intros Hl. destruct (IH Hl) as (y & Hy & Hfy). exists y. auto.
  - intros [= <-]. exists x. auto.
Qed.

Lemma first_throw_none {A B : Type} (f : A -> Result B) (l : list A) :
  first_throw f l = None <-> forall x, In x l -> exists b, f x = Ok b.
Proof.
  induction l as [|x l IH]; simpl.
  - split; [intros _ x []|reflexivity].
  - destruct (f x) as [b|e] eqn:Hx.
    + rewrite IH. split.
      * intros Hl y [<-|Hy]; [exists b; exact Hx|apply Hl, Hy].
      * intros Hl y Hy. apply Hl. now right.
    + split; [discriminate|].
      intros Hl. destruct (Hl x (or_introl eq_refl)) as (b & Hb). congruence.
Qed.

Lemma createIgnoreFilter_throws (entry : FileEntry) (err : Exn) :
  FilterUtils.createIgnoreFilter (ignoreRules config) (startPath config) entry = Throw err
  <-> ignores (ignoreRules config) (path_relative (startPath config) (fullPath entry))
      = Throw err.
Proof.
  unfold FilterUtils.createIgnoreFilter.
  destruct (ignores _ _) as [b|e]; simpl; split; congruence.
Qed.

Lemma createIgnoreFilter_answers (entry : FileEntry) :
  (exists b, FilterUtils.createIgnoreFilter (ignoreRules config) (startPath config) entry
             = Ok b)
  <-> exists b, ignores (ignoreRules config)
                  (path_relative (startPath config) (fullPath entry)) = Ok b.
Proof.
  unfold FilterUtils.createIgnoreFilter.
  destruct (ignores _ _) as [b|e]; simpl; split; intros (b' & Hb); try discriminate;
    eexists; reflexivity.
Qed.

Lemma system_kept_In (l : list FileEntry) (e : FileEntry) :
  In e (filter (fun entry => lets_through (FilterUtils.createSystemFileFilter entry)) l)
  <-> In e l /\ Array_includes FilterUtils.systemFiles (name e) = false.
Proof.
  rewrite filter_In. unfold FilterUtils.createSystemFileFilter, lets_through.
  rewrite negb_true_iff. tauto.
Qed.

(** The pipeline throws what the engine throws on an entry that is not in
    the blocklist. *)
Lemma filter_failure_some (l : list FileEntry) (err : Exn) :
  Values.filter_failure config l = Some err ->
  exists e,
    In e l /\ Array_includes FilterUtils.systemFiles (name e) = false /\
    ignores (ignoreRules config) (path_relative (startPath config) (fullPath e))
    = Throw err.
Proof.
  unfold Values.filter_failure. intros Hf.
  apply first_throw_some in Hf. destruct Hf as (e & He & Hthrow).
  apply system_kept_In in He. apply createIgnoreFilter_throws in Hthrow.
  exists e. tauto.
Qed.

Lemma filter_failure_none (l : list FileEntry) :
  Values.filter_failure config l = None <->
  forall e,
    In e l -> Array_includes FilterUtils.systemFiles (name e) = false ->
    exists b, ignores (ignoreRules config)
                (path_relative (startPath config) (fullPath e)) = Ok b.
Proof.
  unfold Values.filter_failure. rewrite first_throw_none. split.
  - intros Hall e He Hsys. apply createIgnoreFilter_answers, Hall, system_kept_In. auto.
  - intros Hall e He. apply system_kept_In in He.
    apply createIgnoreFilter_answers, Hall; tauto.
Qed.

(** The listing fails when [readdirSync] throws, or a filter does. *)
Lemma listing_fails_value (currentPath : string) (err : Exn) :
  listing_fails config currentPath err <->
  readdirSync currentPath = Throw err \/
  exists names,
    readdirSync currentPath = Ok names /\
    Values.filter_failure config (Values.file_entries currentPath names) = Some err.
Proof.
  unfold listing_fails.
  destruct (readdirSync currentPath) as [names|e]; cbn [Res.bind].
  - rewrite createFileEntries_value. cbn [Res.bind]. rewrite filterAndSortEntries_value.
    split.
    + intros Hf. right. exists names. split; [reflexivity|].
      destruct (Values.filter_failure _ _); congruence.
    + intros [Hf|(names' & Hn & Hf)]; [discriminate|].
      injection Hn as <-. rewrite Hf. reflexivity.
  - split; [intros Hf; left; congruence|].
    intros [Hf|(names & Hn & _)]; [congruence|discriminate].
Qed.

Lemma contents_of_fails (currentPath : string) :
  hasErrors (Values.contents_of config currentPath) = true <->
  exists err,
    listing_fails config currentPath err /\
    errorMessage (Values.contents_of config currentPath) = Some (Exn_message err).
Proof.
  unfold Values.contents_of. split.
  - destruct (readdirSync currentPath) as [names|e] eqn:Hread.
    + destruct (Values.filter_failure _ _) as [e|] eqn:Hf; [|discriminate].
      intros _. exists e. split; [|reflexivity].
      apply listing_fails_value. right. exists names. auto.
    + intros _. exists e. split; [|reflexivity].
      apply listing_fails_value. now left.
  - intros (err & Hfails & _). apply listing_fails_value in Hfails.
    destruct Hfails as [->|(names & -> & ->)]; reflexivity.
Qed.

End Failures.

(** X3.  [getDirectoryContents] returns on every path.  It reports an
    error exactly when the listing failed, and then because [readdirSync]
    threw or because the ignore engine threw on the path of a listed name
    that is not in the blocklist; it holds the message of the exception and
    no entry.  Both causes do give an error.  Otherwise it reports no
    message, and the names of its entries are names of the listing, each at
    most as often as the listing holds it: a listing without repetition
    gives entries without repetition. *)
Theorem X3_getDirectoryContents :
  forall (H : Host) (config : TreeGeneratorConfig) (currentPath : string),
    exists contents,
      TreeGenerator.getDirectoryContents config currentPath = Ok contents /\
      (hasErrors contents = true <->
       exists err, listing_fails config currentPath err /\
                   errorMessage contents = Some (Exn_message err)) /\
      (hasErrors contents = true ->
       entries contents = [] /\
       ((exists err,
            readdirSync currentPath = Throw err /\
            errorMessage contents = Some (Exn_message err)) \/
        (exists names n err,
            readdirSync currentPath = Ok names /\ In n names /\
            Array_includes FilterUtils.systemFiles n = false /\
            ignores (ignoreRules config)
              (path_relative (startPath config) (path_join currentPath n)) = Throw err /\
            errorMessage contents = Some (Exn_message err)))) /\
      (forall err, readdirSync currentPath = Throw err -> hasErrors contents = true) /\
      (forall names n err,
          readdirSync currentPath = Ok names -> In n names ->
          Array_includes FilterUtils.systemFiles n = false ->
          ignores (ignoreRules config)
            (path_relative (startPath config) (path_join currentPath n)) = Throw err ->
          hasErrors contents = true) /\
      (hasErrors contents = false ->
       errorMessage contents = None /\
       exists names,
         readdirSync currentPath = Ok names /\
         incl (map name (entries contents)) names /\
         (List.length (entries contents) <= List.length names)%nat /\
         (NoDup names -> NoDup (map name (entries contents)))).
Proof.
  intros H config currentPath.
  exists (Values.contents_of config currentPath).
  split; [apply getDirectoryContents_value|].
  split; [apply contents_of_fails|].
  split; [|split; [|split]].
  - intros He. split; [apply contents_of_error, He|].
    apply contents_of_fails in He. destruct He as (err & Hfails & Hmsg).
    apply listing_fails_value in Hfails.
    destruct Hfails as [Hread|(names & Hread & Hf)].
    + left. exists err. auto.
    + right. apply filter_failure_some in Hf.
      destruct Hf as (e & He & Hsys & Hthrow).
      apply file_entries_In in He. destruct He as (Hn & Hp & _).
      exists names, (name e), err. rewrite <- Hp. auto.
  - intros err Hread. unfold Values.contents_of. rewrite Hread. reflexivity.
  - intros names n err Hread Hn Hsys Hthrow.
    destruct (hasErrors (Values.contents_of config currentPath)) eqn:He; [reflexivity|].
    destruct (contents_of_listed config currentPath He) as (names' & Hread' & Hf & _).
    rewrite Hread in Hread'. injection Hread' as <-.
    destruct (file_entries_In_rev currentPath (List.length names) names 0 n Hn)
      as (index & Hi).
    destruct (proj1 (filter_failure_none config _) Hf _ Hi Hsys) as (b & Hb).
    cbn [Values.file_entry fullPath] in Hb. congruence.
  - intros He.
    destruct (contents_of_listed config currentPath He) as (names & Hread & _ & Hc).
    rewrite Hc. cbn [errorMessage entries]. split; [reflexivity|].
    exists names. split; [exact Hread|].
    assert (Hnames : map name (Values.file_entries currentPath names) = names).
    { unfold Values.file_entries, Array_mapi.
      rewrite (mapi_from_map _ name (fun n => n)) by reflexivity. apply map_id. }
    pose proof (sorted_entries_names config (Values.file_entries currentPath names))
      as Hperm.
    split; [|split].
    + intros n Hn. eapply Permutation_in in Hn; [|exact Hperm].
      apply in_map_iff in Hn. destruct Hn as (e & <- & He').
      apply kept_In in He'. destruct He' as (He' & _).
      rewrite <- Hnames. apply in_map. exact He'.
    + rewrite sorted_entries_length. unfold kept.
      etransitivity; [apply filter_length_le|].
      etransitivity; [apply filter_length_le|].
      unfold Values.file_entries, Array_mapi. rewrite mapi_from_length. lia.
    + intros Hnd. eapply Permutation_NoDup; [apply Permutation_sym, Hperm|].
      unfold kept. apply NoDup_map_filter, NoDup_map_filter.
      rewrite Hnames. exact Hnd.
Qed.

(** The directory with a name made of dots: [readdirSync] lists it, the
    engine throws on the name, and the listing is an error with no entry. *)
Lemma X3_witness :
  let H := Mem.host dots_fs Mem.collate_units in
  exists contents,
    TreeGenerator.getDirectoryContents locked_config "/r" = Ok contents /\
    readdirSync "/r" = Ok ["a.txt"; "..."; "sub"] /\
    hasErrors contents = true /\
    entries contents = [].
Proof.
  intros H.
  destruct (X3_getDirectoryContents H locked_config "/r")
    as (contents & Hc & _ & Hnone & _ & Hthrow & _).
  assert (He : hasErrors contents = true).
  { apply (Hthrow ["a.txt"; "..."; "sub"] "..."
             (Error "path should be a `path.relative()`d string, but got '...'")
             eq_refl (or_intror (or_introl eq_refl)) eq_refl eq_refl). }
  exists contents. split; [exact Hc|]. split; [reflexivity|]. split; [exact He|].
  apply (proj1 (Hnone He)).
Defined.

(** ** The pipeline, further *)

(** X4.  A result [filterAndSortEntries] returns neither invents, repeats
    nor loses an entry: up to the is-last flags it is a rearrangement of
    the entries that pass both filters, so it is no longer than the input,
    and an entry is in it exactly when it is an entry of the input that
    passes both filters, with a flag set anew.  The call throws what the
    engine throws on an entry that is not in the blocklist, and returns when
    the engine answers about every such entry.  No assumption is made on
    the comparator. *)
Theorem X4_pipeline_permutation :
  forall (H : Host) (config : TreeGeneratorConfig) (l : list FileEntry),
    (forall out,
        TreeGenerator.filterAndSortEntries config l = Ok out ->
        Permutation (map forget_last out) (map forget_last (kept config l)) /\
        (List.length out <= List.length l)%nat /\
        (forall e,
            In e out ->
            exists e', In e' l /\ passes config e' /\ e = with_isLast e' (isLast e)) /\
        (forall e',
            In e' l -> passes config e' -> exists b, In (with_isLast e' b) out)) /\
    (forall err,
        TreeGenerator.filterAndSortEntries config l = Throw err ->
        exists e,
          In e l /\ Array_includes FilterUtils.systemFiles (name e) = false /\
          ignores (ignoreRules config) (path_relative (startPath config) (fullPath e))
          = Throw err) /\
    ((forall e,
         In e l -> Array_includes FilterUtils.systemFiles (name e) = false ->
         exists b, ignores (ignoreRules config)
                     (path_relative (startPath config) (fullPath e)) = Ok b) ->
     exists out, TreeGenerator.filterAndSortEntries config l = Ok out).
Proof.
  intros H config l. split; [|split].
  - intros out Hout. apply filterAndSortEntries_returned in Hout.
    destruct Hout as [_ ->].
    split; [apply sorted_entries_perm|]. split; [|split].
    + rewrite sorted_entries_length. unfold kept.
      etransitivity; [apply filter_length_le|]. apply filter_length_le.
    + intros e He. pose proof (sorted_entries_passes config l e He) as Hpass.
      apply sorted_entries_In in He. destruct He as (e' & He' & Heq).
      exists e'. apply kept_In in He'. destruct He' as (Hin & _).
      split; [exact Hin|]. split; [|exact Heq].
      rewrite Heq in Hpass. exact Hpass.
    + intros e' Hin [Hsys Hig]. apply sorted_entries_In_rev. apply kept_In.
      split; [exact Hin|].
      unfold FilterUtils.createSystemFileFilter, FilterUtils.createIgnoreFilter.
      rewrite Hsys, Hig. auto.
  - intros err Hthrow. rewrite filterAndSortEntries_value in Hthrow.
    destruct (Values.filter_failure config l) as [e|] eqn:Hf; [|discriminate].
    injection Hthrow as ->. apply filter_failure_some, Hf.
  - intros Hall. rewrite filterAndSortEntries_value.
    rewrite (proj2 (filter_failure_none config l) Hall). eexists. reflexivity.
Qed.

(** [file1.txt] passes the filters of the plain configuration. *)
Lemma X4_witness :
  let H := Mem.host Mem.test_dir Mem.collate_units in
  let out := [ mkFileEntry "subdir" "/test-dir/subdir" true false (Some (mkStats KDirectory));
               mkFileEntry "file1.txt" "/test-dir/file1.txt" false true
                 (Some (mkStats KFile)) ] in
  exists b, In (with_isLast file1_entry b) out.
Proof.
  intros H out.
  assert (Hout : TreeGenerator.filterAndSortEntries test_config
                   (Values.file_entries "/test-dir" ["file1.txt"; "subdir"]) = Ok out)
    by (vm_compute; reflexivity).
  apply (proj2 (proj2 (proj2 (proj1 (X4_pipeline_permutation H test_config
                                (Values.file_entries "/test-dir" ["file1.txt"; "subdir"]))
                                out Hout)))
           (with_isLast file1_entry false)).
  - left. reflexivity.
  - split; reflexivity.
Defined.

Lemma sort_sorted_id {A : Type} (cmp : A -> A -> Z) (l : list A) :
  StronglySorted (not_after cmp) l -> Array_sort cmp l = l.
Proof.
  induction 1 as [|x l Hs IH Hall]; [reflexivity|].
  cbn [Array_sort fold_right]. fold (Array_sort cmp l). rewrite IH.
  destruct Hall as [|y l' Hxy _]; [reflexivity|].
  cbn [sort_insert]. unfold not_after in Hxy.
  apply Z.leb_le in Hxy. rewrite Hxy. reflexivity.
Qed.

Lemma filter_all {A : Type} (f : A -> bool) (l : list A) :
  (forall x, In x l -> f x = true) -> filter f l = l.
Proof.
  induction l as [|x l IH]; intros Hf; simpl; [reflexivity|].
  rewrite (Hf x (or_introl eq_refl)). f_equal. apply IH. intros y Hy. apply Hf. now right.
Qed.

Lemma mapi_relabel_twice (g g' : nat -> bool) (l : list FileEntry) (k : nat) :
  Array_mapi_from (fun e i => with_isLast e (g i)) k
    (Array_mapi_from (fun e i => with_isLast e (g' i)) k l)
  = Array_mapi_from (fun e i => with_isLast e (g i)) k l.
Proof.
  revert k. induction l as [|x l IH]; intros k; simpl; [reflexivity|].
  rewrite IH. reflexivity.
Qed.

(** X5.  Under a consistent [localeCompare] the pipeline is idempotent:
    run on a result it returned it returns, and changes nothing, neither
    the entries, nor their order, nor the flags. *)
Theorem X5_pipeline_idempotent :
  forall (H : Host) (config : TreeGeneratorConfig) (l out : list FileEntry),
    consistent localeCompare ->
    TreeGenerator.filterAndSortEntries config l = Ok out ->
    TreeGenerator.filterAndSortEntries config out = Ok out.
Proof.
  intros H config l out Hc Hout.
  apply filterAndSortEntries_returned in Hout. destruct Hout as [_ ->].
  assert (Hkept : kept config (Values.sorted_entries config l)
                  = Values.sorted_entries config l).
  { unfold kept. rewrite (filter_all (fun entry =>
                            lets_through (FilterUtils.createSystemFileFilter entry))).
    - apply filter_all. intros e He.
      destruct (sorted_entries_passes config l e He) as (_ & Hig).
      unfold FilterUtils.createIgnoreFilter. rewrite Hig. reflexivity.
    - intros e He.
      destruct (sorted_entries_passes config l e He) as (Hsys & _).
      unfold FilterUtils.createSystemFileFilter. rewrite Hsys. reflexivity. }
  rewrite filterAndSortEntries_value.
  rewrite (proj2 (filter_failure_none config (Values.sorted_entries config l))).
  2:{ intros e He _. destruct (sorted_entries_passes config l e He) as (_ & Hig).
      exists false. exact Hig. }
  f_equal.
  rewrite (sorted_entries_unfold config (Values.sorted_entries config l)).
  cbv zeta. rewrite Hkept.
  rewrite (sort_sorted_id (sorted_entries_sorted config l Hc)).
  rewrite (sorted_entries_unfold config l). cbv zeta.
  rewrite mapi_relabel_twice, mapi_relabel_length. reflexivity.
Qed.

(** The listing of the test tree, filtered and sorted twice. *)
Lemma X5_witness :
  let H := Mem.host Mem.test_dir Mem.collate_units in
  let out := [ mkFileEntry "subdir" "/test-dir/subdir" true false (Some (mkStats KDirectory));
               mkFileEntry "file1.txt" "/test-dir/file1.txt" false true
                 (Some (mkStats KFile)) ] in
  TreeGenerator.filterAndSortEntries test_config out = Ok out.
Proof.
  intros H out.
  apply (@X5_pipeline_idempotent H test_config
           (Values.file_entries "/test-dir" ["file1.txt"; "subdir"]) out
           collate_units_consistent).
  vm_compute. reflexivity.
Defined.

(** X6.  The default comparator puts a directory before a file whatever
    their names, and compares two entries of one kind as [localeCompare]
    compares their names; the flags and the paths play no part.  It is a
    consistent comparator whenever [localeCompare] is one. *)
Theorem X6_createDefaultSort :
  forall (H : Host),
    (forall a b, isDirectory a = true -> isDirectory b = false ->
                 SortUtils.createDefaultSort a b = -1 /\
                 SortUtils.createDefaultSort b a = 1) /\
    (forall a b, isDirectory a = isDirectory b ->
                 SortUtils.createDefaultSort a b = localeCompare (name a) (name b)) /\
    (forall a b a' b',
        name a = name a' -> isDirectory a = isDirectory a' ->
        name b = name b' -> isDirectory b = isDirectory b' ->
        SortUtils.createDefaultSort a b = SortUtils.createDefaultSort a' b') /\
    (consistent localeCompare -> consistent SortUtils.createDefaultSort).
Proof.
  intros H. unfold SortUtils.createDefaultSort. split; [|split; [|split]].
  - intros a b -> ->. split; reflexivity.
  - intros a b ->. destruct (isDirectory b); reflexivity.
  - intros a b a' b' -> -> -> ->. reflexivity.
  - apply createDefaultSort_consistent.
Qed.

(** The comparator over the order of the code units. *)
Lemma X6_witness :
  let H := Mem.host Mem.test_dir Mem.collate_units in
  consistent SortUtils.createDefaultSort.
Proof.
  intros H.
  apply (proj2 (proj2 (proj2 (X6_createDefaultSort H)))).
  exact collate_units_consistent.
Defined.

(** ** Loading the ignore files *)

Section Loading.
Context {H : Host}.

Lemma load_file_cases (label filePath : string) (ig : Ignore) :
  (exists content,
      readFileSync filePath = Ok content /\ add_throws ig content = None /\
      Run.load_file label filePath ig = (ig ++ [content], [])) \/
  (exists content err,
      readFileSync filePath = Ok content /\ add_throws ig content = Some err /\
      Run.load_file label filePath ig = (ig ++ [content], [Run.warning label err])) \/
  (exists err,
      readFileSync filePath = Throw err /\
      Run.load_file label filePath ig = (ig, [Run.warning label err])).
Proof.
  unfold Run.load_file, ignore_add. destruct (readFileSync filePath) as [content|err].
  - cbn [fst snd]. destruct (add_throws ig content) as [err|] eqn:Hadd.
    + right; left. exists content, err. auto.
    + left. exists content. auto.
  - right; right. exists err. auto.
Qed.

(** What [loadAllIgnoreRules] gives to [add]: the content of every regular
    file of the names that can be read, in the order of the names. *)
Lemma load_all_account (startPath : string) (files : list string) :
  forall ig,
    fst (Run.load_all startPath files ig)
    = ig ++ flat_map (fun f => match readFileSync (path_join startPath f) with
                               | Ok content => [content]
                               | Throw _ => []
                               end)
              (filter (fun f => Values.is_file (path_join startPath f)) files) /\
    (forall w, In w (snd (Run.load_all startPath files ig)) ->
       exists f err,
         In f files /\ Values.is_file (path_join startPath f) = true /\
         w = Run.warning f err /\
         (readFileSync (path_join startPath f) = Throw err \/
          exists given content,
            readFileSync (path_join startPath f) = Ok content /\
            add_throws given content = Some err)) /\
    (forall f err, In f files -> Values.is_file (path_join startPath f) = true ->
       readFileSync (path_join startPath f) = Throw err ->
       In (Run.warning f err) (snd (Run.load_all startPath files ig))) /\
    ((forall given content, add_throws given content = None) ->
     (List.length (fst (Run.load_all startPath files ig))
      + List.length (snd (Run.load_all startPath files ig))
      = List.length ig
        + List.length (filter (fun f => Values.is_file (path_join startPath f)) files))%nat).
Proof.
  induction files as [|f files IH]; intros ig.
  - simpl. rewrite app_nil_r. repeat split; tauto.
  - cbn [Run.load_all filter]. cbv zeta.
    destruct (Values.is_file (path_join startPath f)) eqn:Hfile.
    + destruct (load_file_cases f (path_join startPath f) ig)
        as [(content & Hread & Hadd & Hload)
           |[(content & err & Hread & Hadd & Hload)|(err & Hread & Hload)]];
        rewrite Hload; cbn [fst snd flat_map]; rewrite Hread.
      * destruct (IH (ig ++ [content])) as (Hfst & Hsrc & Hall & Hlen).
        rewrite Hfst, <- app_assoc. split; [reflexivity|]. split; [|split].
        -- intros w Hw. cbn [app] in Hw.
           destruct (Hsrc w Hw) as (f' & e & Hf' & Hrest).
           exists f', e. split; [now right|exact Hrest].
        -- intros f' e [<-|Hf'] Hfile' Hread'; [congruence|].
           cbn [app]. eapply Hall; eassumption.
        -- intros Hnone. specialize (Hlen Hnone). rewrite Hfst in Hlen.
           rewrite !length_app in *. cbn [List.length app] in *. lia.
      * destruct (IH (ig ++ [content])) as (Hfst & Hsrc & Hall & Hlen).
        rewrite Hfst, <- app_assoc. split; [reflexivity|]. split; [|split].
        -- intros w [<-|Hw].
           ++ exists f, err. split; [now left|]. split; [exact Hfile|].
              split; [reflexivity|]. right. exists ig, content. auto.
           ++ destruct (Hsrc w Hw) as (f' & e & Hf' & Hrest).
              exists f', e. split; [now right|exact Hrest].
        -- intros f' e [<-|Hf'] Hfile' Hread'; [congruence|].
           right. eapply Hall; eassumption.
        -- intros Hnone. rewrite Hnone in Hadd. discriminate.
      * destruct (IH ig) as (Hfst & Hsrc & Hall & Hlen).
        rewrite Hfst. split; [reflexivity|]. split; [|split].
        -- intros w [<-|Hw].
           ++ exists f, err. split; [now left|]. auto.
           ++ destruct (Hsrc w Hw) as (f' & e & Hf' & Hrest).
              exists f', e. split; [now right|exact Hrest].
        -- intros f' e [<-|Hf'] Hfile' Hread'.
           ++ left. congruence.
           ++ right. eapply Hall; eassumption.
        -- intros Hnone. specialize (Hlen Hnone). rewrite Hfst in Hlen.
           rewrite !length_app in *. cbn [List.length app] in *. lia.
    + cbn [fst snd app]. destruct (IH ig) as (Hfst & Hsrc & Hall & Hlen).
      split; [exact Hfst|]. split; [|split; [|exact Hlen]].
      * intros w Hw. destruct (Hsrc w Hw) as (f' & e & Hf' & Hrest).
        exists f', e. split; [now right|exact Hrest].
      * intros f' e [<-|Hf'] Hfile' Hread'; [congruence|].
        eapply Hall; eassumption.
Qed.

Lemma filter_filter {A : Type} (f g : A -> bool) (l : list A) :
  filter g (filter f l) = filter (fun x => f x && g x) l.
Proof.
  induction l as [|x l IH]; simpl; [reflexivity|].
  destruct (f x); simpl; [destruct (g x)|]; rewrite IH; reflexivity.
Qed.

Lemma ignore_candidate_value (startPath f : string) :
  ignore_candidate startPath f
  = (startsWith f "." && endsWith f "ignore") && Values.is_file (path_join startPath f).
Proof. unfold ignore_candidate. rewrite isFile_value. reflexivity. Qed.

End Loading.

(** X7.  [loadGitignoreRules] returns in every case and touches neither
    the standard output nor the counters.  Without a [.gitignore] in the
    start directory it changes nothing; with one that can be read it gives
    its content to [add], and prints nothing when the engine takes it; when
    [add] throws, or when the file cannot be read, it prints one line on
    the error stream with the message of the exception, and in the second
    case the object is as it was. *)
Theorem X7_loadGitignoreRules :
  forall (H : Host) (startPath : string) (ig : Ignore) (m : Machine),
    let gitignorePath := path_join startPath ".gitignore" in
    let r := TreeGenerator.loadGitignoreRules startPath (Build.mkState ig m) in
    let warned (err : Exn) :=
      mkMachine (tg_stats m) (console_out m)
        (console_err m
         ++ [chalk_red ("Error reading .gitignore file: " +++ Exn_message err)]) in
    fst r = Returned tt /\
    (existsSync gitignorePath = false -> snd r = Build.mkState ig m) /\
    (forall content,
        existsSync gitignorePath = true -> readFileSync gitignorePath = Ok content ->
        add_throws ig content = None ->
        snd r = Build.mkState (ig ++ [content]) m) /\
    (forall content err,
        existsSync gitignorePath = true -> readFileSync gitignorePath = Ok content ->
        add_throws ig content = Some err ->
        snd r = Build.mkState (ig ++ [content]) (warned err)) /\
    (forall err,
        existsSync gitignorePath = true -> readFileSync gitignorePath = Throw err ->
        snd r = Build.mkState ig (warned err)).
Proof.
  intros H startPath ig m gitignorePath r warned. subst r.
  rewrite loadGitignoreRules_run. unfold Run.gitignore_rules. cbv zeta.
  fold gitignorePath. cbn [fst snd]. split; [reflexivity|].
  split; [|split; [|split]].
  - intros ->. cbn [fst snd]. rewrite warn_nil. reflexivity.
  - intros content -> Hread Hadd. unfold Run.load_file, ignore_add. rewrite Hread, Hadd.
    cbn [fst snd]. rewrite warn_nil. reflexivity.
  - intros content err -> Hread Hadd. unfold Run.load_file, ignore_add.
    rewrite Hread, Hadd. reflexivity.
  - intros err -> Hread. unfold Run.load_file. rewrite Hread. reflexivity.
Qed.

(** The [.gitignore] of the start directory above is read, and the engine
    takes it. *)
Lemma X7_witness :
  let H := Mem.host ignore_fs Mem.collate_units in
  snd (TreeGenerator.loadGitignoreRules "/p" (Build.mkState ignore_new initial))
  = Build.mkState ["*.log"] initial.
Proof.
  intros H.
  exact (proj1 (proj2 (proj2 (X7_loadGitignoreRules H "/p" ignore_new initial)))
           "*.log" eq_refl eq_refl eq_refl).
Defined.

(** X8.  [loadAllIgnoreRules] returns in every case and touches neither
    the standard output nor the counters.  When the start directory cannot
    be listed it gives nothing to [add] and prints nothing.  Otherwise it
    gives to [add], in the order of the listing, the content of every
    listed name that starts with a dot, ends in [ignore], is a regular file
    and can be read, and nothing else.  Every line it prints is about such
    a name, that could not be read or whose content made [add] throw; a
    name that cannot be read gives its line; and when the engine takes all
    it is given, each name gives one content or one line.  The
    [.gitignore] of the listing, when it is a regular file that can be
    read, is among what is given. *)
Theorem X8_loadAllIgnoreRules :
  forall (H : Host) (startPath : string) (ig : Ignore) (m : Machine),
    exists added warnings,
      TreeGenerator.loadAllIgnoreRules startPath (Build.mkState ig m)
      = (Returned tt,
         Build.mkState (ig ++ added)
           (mkMachine (tg_stats m) (console_out m) (console_err m ++ warnings))) /\
      ((exists err, readdirSync startPath = Throw err) -> added = [] /\ warnings = []) /\
      (forall files,
          readdirSync startPath = Ok files ->
          added = flat_map (fun f => match readFileSync (path_join startPath f) with
                                     | Ok content => [content]
                                     | Throw _ => []
                                     end)
                    (filter (ignore_candidate startPath) files) /\
          (forall w, In w warnings ->
             exists f err,
               In f files /\ ignore_candidate startPath f = true /\
               w = chalk_red ("Error reading " +++ f +++ " file: " +++ Exn_message err) /\
               (readFileSync (path_join startPath f) = Throw err \/
                exists given content,
                  readFileSync (path_join startPath f) = Ok content /\
                  add_throws given content = Some err)) /\
          (forall f err,
             In f files -> ignore_candidate startPath f = true ->
             readFileSync (path_join startPath f) = Throw err ->
             In (chalk_red ("Error reading " +++ f +++ " file: " +++ Exn_message err))
                warnings) /\
          ((forall given content, add_throws given content = None) ->
           (List.length added + List.length warnings
            = List.length (filter (ignore_candidate startPath) files))%nat) /\
          (forall content,
             In ".gitignore" files ->
             FileUtils.isFile (path_join startPath ".gitignore") = Ok true ->
             readFileSync (path_join startPath ".gitignore") = Ok content ->
             In content added)).
Proof.
  intros H startPath ig m. rewrite loadAllIgnoreRules_run.
  unfold Run.allignore_rules.
  destruct (readdirSync startPath) as [files|err].
  - set (names := filter (fun name => startsWith name "." && endsWith name "ignore") files).
    assert (Hcand : filter (fun f => Values.is_file (path_join startPath f)) names
                    = filter (ignore_candidate startPath) files).
    { unfold names. rewrite filter_filter.
      apply filter_ext. intros f. symmetry. apply ignore_candidate_value. }
    assert (Hcand_In : forall f, In f names /\ Values.is_file (path_join startPath f) = true
                                 <-> In f files /\ ignore_candidate startPath f = true).
    { intros f.
      rewrite <- (filter_In (fun f => Values.is_file (path_join startPath f)) f names).
      rewrite Hcand. apply filter_In. }
    destruct (load_all_account startPath names ig) as (Hfst & Hsrc & Hall & Hlen).
    rewrite Hcand in Hfst, Hlen.
    eexists. exists (snd (Run.load_all startPath names ig)).
    rewrite Hfst. split; [reflexivity|]. split; [intros (err & Herr); discriminate|].
    intros files' [= <-]. split; [reflexivity|]. split; [|split; [|split]].
    + intros w Hw. destruct (Hsrc w Hw) as (f & err & Hf & Hfile & -> & Hwhy).
      exists f, err. destruct (proj1 (Hcand_In f) (conj Hf Hfile)) as [Hf' Hc].
      split; [exact Hf'|]. split; [exact Hc|]. split; [reflexivity|exact Hwhy].
    + intros f err Hf Hc Hread.
      destruct (proj2 (Hcand_In f) (conj Hf Hc)) as [Hf' Hfile].
      apply (Hall f err Hf' Hfile Hread).
    + intros Hnone. specialize (Hlen Hnone). rewrite Hfst, length_app in Hlen. lia.
    + intros content Hin Hfile Hread. rewrite isFile_value in Hfile.
      injection Hfile as Hfile.
      apply in_flat_map. exists ".gitignore". split.
      * apply filter_In. split; [exact Hin|].
        rewrite ignore_candidate_value, Hfile. reflexivity.
      * rewrite Hread. now left.
  - exists [], []. cbn [fst snd]. rewrite app_nil_r. unfold Run.warn. rewrite app_nil_r.
    split; [destruct m; reflexivity|]. split; [auto|]. intros files Hfiles. discriminate.
Qed.

(** The start directory above: one content given and one line, for its two
    regular ignore files. *)
Lemma X8_witness :
  let H := Mem.host ignore_fs Mem.collate_units in
  TreeGenerator.loadAllIgnoreRules "/p" (Build.mkState ignore_new initial)
  = (Returned tt,
     Build.mkState ["*.log"]
       (mkMachine (mkTreeStats 0 0) []
          ["Error reading .npmignore file: EACCES: permission denied, open '/p/.npmignore'"]))
  /\
  exists added warnings,
    (List.length added + List.length warnings)%nat = 2%nat /\
    TreeGenerator.loadAllIgnoreRules "/p" (Build.mkState ignore_new initial)
    = (Returned tt,
       Build.mkState (ignore_new ++ added) (mkMachine (mkTreeStats 0 0) [] ([] ++ warnings))).
Proof.
  intros H. split; [reflexivity|].
  destruct (X8_loadAllIgnoreRules H "/p" ignore_new initial)
    as (added & warnings & Hrun & _ & Hfiles).
  exists added, warnings. split; [|exact Hrun].
  destruct (Hfiles _ eq_refl) as (Hadded & _ & Hunread & _).
  assert (Hw : In "Error reading .npmignore file: EACCES: permission denied, open '/p/.npmignore'"
                  warnings).
  { apply (Hunread ".npmignore"
             (Error "EACCES: permission denied, open '/p/.npmignore'")).
    - right; right; left. reflexivity.
    - reflexivity.
    - reflexivity. }
  assert (Hrun' := Hrun). vm_compute in Hrun'.
  injection Hrun' as Ha Hws. rewrite <- Ha, <- Hws. reflexivity.
Defined.






(** ** The walk, further *)

Section WalkFurther.
Context {H : Host}.
Variable config : TreeGeneratorConfig.

Lemma Emits_site currentPath prefix currentDepth line :
  Trace.Emits config currentPath prefix currentDepth line ->
  match site line with
  | AtEntry _ _ | AtListingError _ => True
  | _ => False
  end.
Proof.
  intros Hemits. destruct (Emits_level Hemits) as (level & [->|(e & ->)] & _); exact I.
Qed.

Lemma prefix_refl (s : string) : String.prefix s s = true.
Proof.
  induction s as [|c s IH]; simpl; [reflexivity|].
  destruct (ascii_dec c c); [exact IH|congruence].
Qed.

Lemma prefix_append (a b : string) : String.prefix a (a +++ b) = true.
Proof.
  induction a as [|c a IH]; simpl; [destruct b; reflexivity|].
  destruct (ascii_dec c c); [exact IH|congruence].
Qed.

Lemma prefix_append_l (a b t : string) :
  String.prefix (a +++ b) t = true -> String.prefix a t = true.
Proof.
  revert t. induction a as [|c a IH]; intros t Hp; [destruct t; reflexivity|].
  destruct t as [|c' t]; simpl in *; [discriminate|].
  destruct (ascii_dec c c'); [apply IH; exact Hp|discriminate].
Qed.

(** Every line of a walk starts with the prefix of the walk. *)
Lemma Emits_prefix currentPath prefix currentDepth line :
  Trace.Emits config currentPath prefix currentDepth line ->
  String.prefix prefix (text line) = true.
Proof.
  induction 1 as [p pre d contents entry Hd Hg He Hin
                 |p pre d contents Hd Hg He
                 |p pre d contents entry line Hd Hg He Hin Hdir Hsub IH].
  - apply prefix_append.
  - apply prefix_append.
  - unfold TreeGenerator.getNextPrefix in IH. eapply prefix_append_l. exact IH.
Qed.

End WalkFurther.

(** X10.  What a walk does to the machine depends on its arguments only:
    it returns or is still running, and never throws or leaves the
    process; it adds lines to the standard output and removes none; every
    line it adds is an entry line or an error line; the counters grow by
    the numbers of directory lines and of file lines added; and the error
    stream is left as it was. *)
Theorem X10_walk_effect :
  forall (H : Host) (fuel : nat) (config : TreeGeneratorConfig)
         (currentPath prefix : string) (currentDepth : Z),
    exists outcome printed,
      (outcome = Returned tt \/ outcome = OutOfFuel) /\
      Forall (fun line => match site line with
                          | AtEntry _ _ | AtListingError _ => True
                          | _ => False
                          end) printed /\
      forall m,
        TreeGenerator.walk fuel config currentPath prefix currentDepth m
        = (outcome,
           mkMachine
             (mkTreeStats (dirCount (tg_stats m) + dir_lines printed)
                          (fileCount (tg_stats m) + file_lines printed))
             (console_out m ++ printed)
             (console_err m)).
Proof.
  intros H fuel config currentPath prefix currentDepth.
  exists (fst (Trace.walk_lines fuel config currentPath prefix currentDepth)),
    (snd (Trace.walk_lines fuel config currentPath prefix currentDepth)).
  split; [apply walk_lines_outcome|]. split.
  - eapply Forall_impl; [|apply walk_lines_sound]. intros line. apply Emits_site.
  - intros m. apply walk_run.
Qed.

(** X11.  Every line a walk prints starts with the prefix the walk was
    called with: the lines below a directory are indented under it. *)
Theorem X11_walk_prefix :
  forall (H : Host) (fuel : nat) (config : TreeGeneratorConfig)
         (currentPath prefix : string) (currentDepth : Z) (m : Machine),
    exists printed,
      console_out (snd (TreeGenerator.walk fuel config currentPath prefix currentDepth m))
      = console_out m ++ printed /\
      Forall (fun line => String.prefix prefix (text line) = true) printed.
Proof.
  intros H fuel config currentPath prefix currentDepth m.
  exists (snd (Trace.walk_lines fuel config currentPath prefix currentDepth)).
  rewrite walk_run. split; [reflexivity|].
  eapply Forall_impl; [|apply walk_lines_sound]. intros line. apply Emits_prefix.
Qed.

(** X12.  The walk is depth-first and in pre-order.  When the listing of a
    directory within the maximum depth succeeds and the walk returns, what
    it has printed is, for each entry of the contents in their order, the
    line of the entry followed, for a directory, by all that the walk of
    this directory prints, one level down and with the next prefix; each of
    these walks has returned.  A directory with no entry left prints
    nothing. *)
Theorem X12_walk_preorder :
  forall (H : Host) (fuel : nat) (config : TreeGeneratorConfig)
         (currentPath prefix : string) (currentDepth : Z)
         (contents : DirectoryContents) (m m' : Machine),
    depth_gt currentDepth (maxDepth config) = false ->
    TreeGenerator.getDirectoryContents config currentPath = Ok contents ->
    hasErrors contents = false ->
    TreeGenerator.walk (S fuel) config currentPath prefix currentDepth m = (Returned tt, m') ->
    let below entry :=
      TreeGenerator.walk fuel config (fullPath entry)
        (TreeGenerator.getNextPrefix prefix (isLast entry)) (currentDepth + 1) initial in
    console_out m'
    = console_out m
      ++ flat_map (fun entry =>
                     mkLine (AtEntry currentDepth entry)
                       (prefix +++ TreeGenerator.connector_of entry +++ styled entry)
                     :: (if isDirectory entry then console_out (snd (below entry)) else []))
           (entries contents) /\
    (forall entry, In entry (entries contents) -> isDirectory entry = true ->
                   fst (below entry) = Returned tt) /\
    (entries contents = [] -> m' = m).
Proof.
  intros H fuel config currentPath prefix currentDepth contents m m' Hgt Hg He Hwalk below.
  rewrite getDirectoryContents_value in Hg. injection Hg as <-.
  rewrite walk_run in Hwalk.
  assert (Hr := f_equal fst Hwalk). assert (Hm := f_equal snd Hwalk).
  cbn [fst snd] in Hr, Hm. subst m'. clear Hwalk.
  rewrite walk_lines_step in Hr |- *. rewrite Hgt in Hr |- *. cbv zeta in Hr |- *.
  rewrite He in Hr |- *.
  pose proof (lines_forEach_returned_inv _ _ Hr) as Hall.
  rewrite lines_forEach_returned by exact Hall. cbn [snd].
  split; [|split].
  - cbn [emit console_out]. f_equal. rewrite flat_map_concat_map. f_equal.
    apply map_ext. intros entry. unfold below. rewrite walk_run.
    destruct (isDirectory entry); reflexivity.
  - intros entry Hin Hdir. specialize (Hall entry Hin). cbv beta in Hall.
    rewrite Hdir in Hall. unfold below. rewrite walk_run. exact Hall.
  - intros ->. cbn [map List.concat]. apply emit_nil.
Qed.

(** The walk of the test tree from its root. *)
Lemma X12_witness :
  let H := Mem.host Mem.test_dir Mem.collate_units in
  exists m',
    TreeGenerator.walk 3 test_config "/test-dir" "" 1 initial = (Returned tt, m') /\
    map text (console_out m') = ["├── subdir"; "│   └── file2.txt"; "└── file1.txt"].
Proof.
  intros H.
  exists (snd (TreeGenerator.walk 3 test_config "/test-dir" "" 1 initial)).
  split; [reflexivity|].
  exact (f_equal (map text)
           (proj1 (@X12_walk_preorder H 2 test_config "/test-dir" "" 1
                     (Values.contents_of test_config "/test-dir") initial
                     (snd (TreeGenerator.walk 3 test_config "/test-dir" "" 1 initial))
                     eq_refl eq_refl eq_refl eq_refl))).
Defined.

Section Truncate.
Context {H : Host}.
Variable config : TreeGeneratorConfig.

Lemma filter_nothing {A : Type} (f : A -> bool) (l : list A) :
  Forall (fun x => f x = false) l -> filter f l = [].
Proof.
  induction 1 as [|x l Hx _ IH]; simpl; [reflexivity|]. rewrite Hx. exact IH.
Qed.

Lemma contents_of_with_depth (depth : Depth) (currentPath : string) :
  Values.contents_of (with_depth config depth) currentPath
  = Values.contents_of config currentPath.
Proof. reflexivity. Qed.

(** The walk under a smaller maximum depth prints the lines of the walk
    under the larger one that are within the smaller. *)
Lemma walk_lines_truncate (depth : Depth) (n : Z) (fuel : nat) :
  (forall level, depth_gt level depth = true -> n < level) ->
  forall currentPath prefix currentDepth,
    fst (Trace.walk_lines fuel (with_depth config depth) currentPath prefix currentDepth)
    = Returned tt ->
    Trace.walk_lines fuel (with_depth config (Finite n)) currentPath prefix currentDepth
    = (Returned tt,
       filter (within n)
         (snd (Trace.walk_lines fuel (with_depth config depth) currentPath prefix
                 currentDepth))).
Proof.
  intros Hdepth. induction fuel as [|fuel IH]; intros currentPath prefix currentDepth Hr.
  - discriminate.
  - pose proof (walk_lines_sound (with_depth config depth) (S fuel) currentPath prefix
                  currentDepth) as Hsound.
    rewrite (walk_lines_step (with_depth config depth)) in Hr, Hsound |- *.
    rewrite (walk_lines_step (with_depth config (Finite n))).
    rewrite !contents_of_with_depth in *.
    cbn [maxDepth with_depth] in *.
    destruct (depth_gt currentDepth depth) eqn:Hcut.
    + apply Hdepth in Hcut. cbn [depth_gt]. apply Z.ltb_lt in Hcut. rewrite Hcut. reflexivity.
    + cbv zeta in *. cbn [depth_gt]. destruct (n <? currentDepth) eqn:Hn.
      * apply Z.ltb_lt in Hn. rewrite filter_nothing; [reflexivity|].
        eapply Forall_impl; [|exact Hsound]. intros line Hline.
        destruct (Emits_level Hline) as (level & Hsite & Hle & _).
        unfold within. destruct Hsite as [->|(e & ->)]; apply Z.leb_gt; lia.
      * apply Z.ltb_ge in Hn.
        assert (Hlevel : (currentDepth <=? n) = true) by (apply Z.leb_le; exact Hn).
        destruct (hasErrors (Values.contents_of config currentPath)).
        -- cbn [snd filter within Trace.error_line site]. rewrite Hlevel. reflexivity.
        -- pose proof (lines_forEach_returned_inv _ _ Hr) as Hall.
           rewrite (lines_forEach_returned _ _ Hall). cbn [snd].
           match goal with
           | |- lines_forEach _ _ = (_, filter _ (List.concat (map ?f1 _))) =>
               rewrite (lines_forEach_ext _ _
                          (fun entry => (Returned tt, filter (within n) (f1 entry))))
           end.
           ++ rewrite lines_forEach_returned by reflexivity. cbn [snd].
              rewrite <- concat_filter_map, map_map. reflexivity.
           ++ intros entry Hin.
              specialize (Hall entry Hin). cbv beta in Hall |- *.
              destruct (isDirectory entry).
              ** cbn [fst] in Hall. rewrite (IH _ _ _ Hall).
                 cbn [fst snd filter within Trace.entry_line site]. rewrite Hlevel. reflexivity.
              ** cbn [fst snd filter within Trace.entry_line site]. rewrite Hlevel. reflexivity.
Qed.

End Truncate.

(** X13.  A smaller maximum depth only cuts.  When the walk under a maximum
    depth that cuts nothing up to level [n] returns, the walk under maximum
    depth [n], with the same arguments and fuel, returns as well and prints
    exactly those of its lines that are of a level up to [n], in the same
    order: entry lines and error lines alike. *)
Theorem X13_depth_truncates :
  forall (H : Host) (fuel : nat) (config : TreeGeneratorConfig) (depth : Depth) (n : Z)
         (currentPath prefix : string) (currentDepth : Z) (m m' : Machine),
    (forall level, depth_gt level depth = true -> n < level) ->
    TreeGenerator.walk fuel (with_depth config depth) currentPath prefix currentDepth m
    = (Returned tt, m') ->
    exists printed,
      console_out m' = console_out m ++ printed /\
      forall m0,
        let r := TreeGenerator.walk fuel (with_depth config (Finite n)) currentPath prefix
                   currentDepth m0 in
        fst r = Returned tt /\
        console_out (snd r) = console_out m0 ++ filter (within n) printed.
Proof.
  intros H fuel config depth n currentPath prefix currentDepth m m' Hdepth Hwalk.
  rewrite walk_run in Hwalk.
  assert (Hr := f_equal fst Hwalk). assert (Hm := f_equal snd Hwalk).
  cbn [fst snd] in Hr, Hm. subst m'. clear Hwalk.
  eexists. split; [reflexivity|]. intros m0 r. subst r.
  rewrite walk_run. rewrite (@walk_lines_truncate H config depth n fuel Hdepth _ _ _ Hr).
  split; reflexivity.
Qed.

(** The test tree: the full walk, and the walk under maximum depth 1. *)
Lemma X13_witness :
  let H := Mem.host Mem.test_dir Mem.collate_units in
  map text
    (console_out (snd (TreeGenerator.walk 3 (with_depth test_config (Finite 1))
                         "/test-dir" "" 1 initial)))
  = ["├── subdir"; "└── file1.txt"].
Proof.
  intros H.
  destruct (@X13_depth_truncates H 3 test_config Infinity 1 "/test-dir" "" 1 initial _
              (fun level Hcut => False_ind _ (Bool.diff_false_true Hcut)) eq_refl)
    as (printed & Hprinted & Hcut).
  rewrite (proj2 (Hcut initial)).
  cbn [console_out snd] in Hprinted. vm_compute in Hprinted. subst printed. reflexivity.
Defined.

(** ** The output of a run, further *)

Lemma error_lines_app (l1 l2 : list Line) :
  error_lines (l1 ++ l2) = (error_lines l1 + error_lines l2)%nat.
Proof. unfold error_lines. rewrite filter_app, length_app. reflexivity. Qed.

Lemma lines_by_kind (ls : list Line) :
  Forall (fun line => match site line with
                      | AtEntry _ _ | AtListingError _ => True
                      | _ => False
                      end) ls ->
  List.length ls = (dir_lines ls + file_lines ls + error_lines ls)%nat.
Proof.
  induction 1 as [|line ls Hline _ IH]; [reflexivity|].
  change (line :: ls) with ([line] ++ ls).
  rewrite dir_lines_app, file_lines_app, error_lines_app, length_app, IH.
  unfold dir_lines, file_lines, error_lines. cbn.
  destruct (site line) as [|level e|level|]; try contradiction.
  - destruct (isDirectory e); cbn; lia.
  - cbn. lia.
Qed.

Section ErrorCount.
Context {H : Host}.
Variable config : TreeGeneratorConfig.

Lemma lines_forEach_errors {A : Type} (l : list A) (f : A -> Outcome unit * list Line) :
  (forall x, In x l -> (error_lines (snd (f x)) <= dir_lines (snd (f x)))%nat) ->
  (error_lines (snd (lines_forEach l f)) <= dir_lines (snd (lines_forEach l f)))%nat.
Proof.
  induction l as [|x l IH]; intros Hf; simpl; [reflexivity|].
  pose proof (Hf x (or_introl eq_refl)) as Hx.
  destruct (f x) as [[[]| | |] ls1]; simpl in *; try exact Hx.
  assert (Hl : (error_lines (snd (lines_forEach l f))
                <= dir_lines (snd (lines_forEach l f)))%nat)
    by (apply IH; intros y Hy; apply Hf; now right).
  destruct (lines_forEach l f) as [o ls2]. simpl in *.
  rewrite error_lines_app, dir_lines_app. lia.
Qed.

(** A walk prints at most one error line more than directory lines. *)
Lemma walk_lines_errors (fuel : nat) :
  forall currentPath prefix currentDepth,
    (error_lines (snd (Trace.walk_lines fuel config currentPath prefix currentDepth))
     <= dir_lines (snd (Trace.walk_lines fuel config currentPath prefix currentDepth)) + 1)%nat.
Proof.
  induction fuel as [|fuel IH]; intros currentPath prefix currentDepth.
  - cbn. lia.
  - rewrite walk_lines_step.
    destruct (depth_gt currentDepth (maxDepth config)); [cbn; lia|].
    cbv zeta. destruct (hasErrors (Values.contents_of config currentPath)); [cbn; lia|].
    etransitivity; [apply lines_forEach_errors|lia].
    intros entry _. destruct (isDirectory entry) eqn:Hdir; cbn [snd].
    + specialize (IH (fullPath entry) (TreeGenerator.getNextPrefix prefix (isLast entry))
                    (currentDepth + 1)).
      match goal with |- context [?line :: ?ls] => change (line :: ls) with ([line] ++ ls) end.
      rewrite error_lines_app, dir_lines_app.
      unfold error_lines at 1, dir_lines at 1. cbn. rewrite Hdir. cbn. lia.
    + unfold error_lines, dir_lines. cbn. rewrite Hdir. cbn. lia.
Qed.

End ErrorCount.

(** X14.  Every line of the standard output of a run is accounted for: the
    root line, one line per directory counted, one line per file counted,
    one line per listing that failed, and the summary once the run has
    returned.  The root line comes first; and there is at most one error
    line more than directories counted, one per directory rendered and one
    for the start path. *)
Theorem X14_lines_accounted :
  forall (H : Host) (fuel : nat) (argv : TreeOptions),
    let r := main fuel argv initial in
    let out := console_out (snd r) in
    let frame := match fst r with
                 | Returned _ => 2%nat
                 | OutOfFuel => 1%nat
                 | _ => 0%nat
                 end in
    List.length out
    = (frame + dirCount (tg_stats (snd r)) + fileCount (tg_stats (snd r))
       + error_lines out)%nat /\
    (error_lines out <= dirCount (tg_stats (snd r)) + 1)%nat /\
    (out = [] \/
     exists rest,
       out = mkLine AtRoot (chalk_blue_bold (path_basename (path_resolve (opt_path argv))))
             :: rest).
Proof.
  intros H fuel argv r out frame.
  set (config := Run.config_of argv).
  set (w := Trace.walk_lines fuel config (startPath config) "" 1).
  assert (Hkinds : List.length (snd w)
                   = (dir_lines (snd w) + file_lines (snd w) + error_lines (snd w))%nat).
  { apply lines_by_kind. eapply Forall_impl; [|apply walk_lines_sound].
    intros line. apply Emits_site. }
  pose proof (walk_lines_errors config fuel (startPath config) "" 1) as Herrors.
  fold w in Herrors.
  assert (Hcases := main_cases fuel argv). cbv zeta in Hcases.
  fold r config w in Hcases.
  destruct Hcases
    as [(err & _ & Hfst & Hout & Hst & _)
       |[(_ & _ & Hfst & Hout & Hst & _)
        |(_ & _ & Hst & _ & [(_ & Hfst & Hout)|(_ & Hfst & Hout)])]];
    subst out frame; rewrite Hfst, Hst, Hout; cbn [dirCount fileCount].
  - split; [reflexivity|]. split; [cbn; lia|]. now left.
  - split; [reflexivity|]. split; [cbn; lia|]. now left.
  - change (Run.root_line config :: snd w ++ [Run.summary_line
              (mkTreeStats (dir_lines (snd w)) (file_lines (snd w)))])
      with ([Run.root_line config] ++ snd w ++ [Run.summary_line
              (mkTreeStats (dir_lines (snd w)) (file_lines (snd w)))]).
    rewrite !error_lines_app, !length_app, Hkinds.
    change (error_lines [Run.root_line config]) with 0%nat.
    change (error_lines [Run.summary_line
              (mkTreeStats (dir_lines (snd w)) (file_lines (snd w)))]) with 0%nat.
    cbn [List.length].
    split; [lia|]. split; [lia|]. right. eexists. reflexivity.
  - change (Run.root_line config :: snd w) with ([Run.root_line config] ++ snd w).
    rewrite !error_lines_app, !length_app, Hkinds.
    change (error_lines [Run.root_line config]) with 0%nat.
    cbn [List.length].
    split; [lia|]. split; [lia|]. right. eexists. reflexivity.
Qed.

(** The run on the tree with the locked directory: five lines. *)
Lemma X14_witness :
  let H := Mem.host locked_fs Mem.collate_units in
  let r := main 5 (Mem.plain "/r") initial in
  List.length (console_out (snd r)) = 5%nat /\
  error_lines (console_out (snd r)) = 1%nat.
Proof.
  intros H r. split; [|reflexivity].
  exact (proj1 (X14_lines_accounted H 5 (Mem.plain "/r"))).
Defined.

Section Hanging.
Context {H : Host}.
Variable config : TreeGeneratorConfig.

Lemma hangs_incl (ls ls' : list Line) (currentPath : string) (currentDepth : Z)
    (line : Line) :
  incl ls ls' -> hangs ls currentPath currentDepth line ->
  hangs ls' currentPath currentDepth line.
Proof.
  intros Hincl Hh level entry Hsite.
  destruct (Hh level entry Hsite) as [Hl|(Hlt & dirline & dir & Hin & Hrest)]; [now left|].
  right. split; [exact Hlt|]. exists dirline, dir. split; [apply Hincl, Hin|exact Hrest].
Qed.

Lemma lines_forEach_Forall_mono {A : Type} (Q : list Line -> Line -> Prop)
    (l : list A) (f : A -> Outcome unit * list Line) :
  (forall ls ls' line, incl ls ls' -> Q ls line -> Q ls' line) ->
  (forall x, In x l -> Forall (Q (snd (f x))) (snd (f x))) ->
  Forall (Q (snd (lines_forEach l f))) (snd (lines_forEach l f)).
Proof.
  intros Hmono. induction l as [|x l IH]; intros Hf; simpl; [constructor|].
  pose proof (Hf x (or_introl eq_refl)) as Hx.
  destruct (f x) as [[[]| | |] ls1]; simpl in *; try exact Hx.
  assert (Hl : Forall (Q (snd (lines_forEach l f))) (snd (lines_forEach l f)))
    by (apply IH; intros y Hy; apply Hf; now right).
  destruct (lines_forEach l f) as [o ls2]. simpl in *.
  apply Forall_app. split.
  - eapply Forall_impl; [|exact Hx]. intros line. apply Hmono. apply incl_appl, incl_refl.
  - eapply Forall_impl; [|exact Hl]. intros line. apply Hmono. apply incl_appr, incl_refl.
Qed.

(** Every entry line of a walk hangs in the lines of the walk. *)
Lemma walk_lines_hang (fuel : nat) :
  forall currentPath prefix currentDepth,
    Forall (hangs (snd (Trace.walk_lines fuel config currentPath prefix currentDepth))
              currentPath currentDepth)
      (snd (Trace.walk_lines fuel config currentPath prefix currentDepth)).
Proof.
  induction fuel as [|fuel IH]; intros currentPath prefix currentDepth.
  - constructor.
  - rewrite walk_lines_step.
    destruct (depth_gt currentDepth (maxDepth config)); [constructor|].
    cbv zeta. destruct (hasErrors (Values.contents_of config currentPath)).
    + constructor; [|constructor]. intros level entry Hsite. discriminate.
    + apply (lines_forEach_Forall_mono (fun ls => hangs ls currentPath currentDepth)).
      * intros ls ls' line. apply hangs_incl.
      * intros entry Hin.
        destruct (contents_entry config currentPath entry Hin) as (_ & Hpath & _).
        assert (Hown : forall ls,
                   hangs ls currentPath currentDepth
                     (Trace.entry_line currentDepth entry prefix)).
        { intros ls level e Hsite. injection Hsite as <- <-. left. auto. }
        destruct (isDirectory entry) eqn:Hdir; cbn [snd]; [|constructor; [apply Hown|constructor]].
        constructor; [apply Hown|].
        specialize (IH (fullPath entry) (TreeGenerator.getNextPrefix prefix (isLast entry))
                      (currentDepth + 1)).
        rewrite Forall_forall in IH |- *. intros line Hline level e Hsite.
        right.
        destruct (IH line Hline level e Hsite)
          as [(Hlevel & Hp)|(Hlt & dirline & dir & Hd & Hrest)].
        -- split; [lia|].
           exists (Trace.entry_line currentDepth entry prefix), entry.
           split; [now left|]. split; [|split; [exact Hdir|exact Hp]].
           cbn [Trace.entry_line site]. f_equal. lia.
        -- split; [lia|]. exists dirline, dir. split; [now right|exact Hrest].
Qed.

End Hanging.

(** X15.  The output of a run is a tree.  The entry of a line of level 1
    is a child of the start path; the entry of a line of a deeper level is
    a child of a directory whose own line is in the output, one level up:
    nothing is printed below a directory that is not printed itself. *)
Theorem X15_entries_hang :
  forall (H : Host) (fuel : nat) (argv : TreeOptions)
         (line : Line) (level : Z) (entry : FileEntry),
    let out := console_out (snd (main fuel argv initial)) in
    In line out -> entry_at line level entry ->
    (level = 1 /\
     fullPath entry = path_join (path_resolve (opt_path argv)) (name entry)) \/
    (1 < level /\
     exists dirline dir,
       In dirline out /\ entry_at dirline (level - 1) dir /\
       isDirectory dir = true /\
       fullPath entry = path_join (fullPath dir) (name entry)).
Proof.
  intros H fuel argv line level entry out Hin Hat.
  set (config := Run.config_of argv).
  set (w := Trace.walk_lines fuel config (startPath config) "" 1).
  pose proof (walk_lines_hang config fuel (startPath config) "" 1) as Hhang.
  fold w in Hhang. rewrite Forall_forall in Hhang.
  assert (Hsub : incl (snd w) out /\ In line (snd w)).
  { assert (Hcases := main_cases fuel argv). cbv zeta in Hcases.
    fold config w in Hcases. unfold out in *.
    destruct Hcases
      as [(err & _ & _ & Hout & _)
         |[(_ & _ & _ & Hout & _)
          |(_ & _ & _ & _ & [(_ & _ & Hout)|(_ & _ & Hout)])]];
      rewrite Hout in *.
    - contradiction.
    - contradiction.
    - split; [intros l Hl; right; apply in_or_app; now left|].
      destruct Hin as [<-|Hin]; [discriminate|].
      apply in_app_or in Hin. destruct Hin as [Hin|[<-|[]]]; [exact Hin|discriminate].
    - split; [intros l Hl; now right|].
      destruct Hin as [<-|Hin]; [discriminate|exact Hin]. }
  destruct Hsub as (Hincl & Hline).
  destruct (Hhang line Hline level entry Hat)
    as [Hl|(Hlt & dirline & dir & Hd & Hrest)]; [now left|].
  right. split; [exact Hlt|]. exists dirline, dir. split; [apply Hincl, Hd|exact Hrest].
Qed.

(** The line of [file2.txt] hangs under the line of [subdir]. *)
Lemma X15_witness :
  let H := Mem.host Mem.test_dir Mem.collate_units in
  let out := console_out (snd (main 5 (Mem.plain "/test-dir") initial)) in
  let file2 := mkFileEntry "file2.txt" "/test-dir/subdir/file2.txt" false true
                 (Some (mkStats KFile)) in
  exists dirline dir,
    In dirline out /\ entry_at dirline 1 dir /\
    isDirectory dir = true /\
    fullPath file2 = path_join (fullPath dir) (name file2).
Proof.
  intros H out file2.
  destruct (@X15_entries_hang H 5 (Mem.plain "/test-dir")
              (mkLine (AtEntry 2 file2) "│   └── file2.txt") 2 file2
              (or_intror (or_intror (or_introl eq_refl))) eq_refl)
    as [(Hone & _)|(_ & Hparent)]; [discriminate|exact Hparent].
Defined.




